(** * Website chatbot: the crawl / decide / answer loop

    A shallow embedding of [utils/url_utils.py], [utils/web_scraper.py]
    (the pure part), [nodes.py] and [flow.py], together with the
    properties of the agentic control loop.

    Conventions.
    - Python [str] is [string]; the embedding is exact on ASCII text.
      Bytes above 127 are treated as word characters that are neither
      upper case nor white space.
    - The page fetcher, the language model, [yaml.safe_load] and
      [urlparse] are collaborators outside the repository: their results
      enter as parameters or as answers to the events of an interaction
      tree, never as fixed definitions. *)

From Stdlib Require Import ZArith Lia Ascii String List.
From stdpp Require Import base decidable option list sorting gmap strings pretty.

Local Open Scope string_scope.
Local Open Scope nat_scope.
Local Open Scope list_scope.

(** ** Python string primitives *)

Module Py.

Definition code (c : ascii) : nat := nat_of_ascii c.

(** [str.isspace] on one character (ASCII range). *)
Definition isspace (c : ascii) : bool :=
  let n := code c in
  ((9 <=? n) && (n <=? 13)) || ((28 <=? n) && (n <=? 32)).

Definition isupper (c : ascii) : bool :=
  let n := code c in (65 <=? n) && (n <=? 90).

(** The class [\w] of the [re] module. *)
Definition isword (c : ascii) : bool :=
  let n := code c in
  ((48 <=? n) && (n <=? 57)) || ((65 <=? n) && (n <=? 90))
  || ((97 <=? n) && (n <=? 122)) || (n =? 95) || (128 <=? n).

Definition lower_char (c : ascii) : ascii :=
  if isupper c then ascii_of_nat (code c + 32) else c.

Fixpoint lower (s : string) : string :=
  match s with
  | EmptyString => EmptyString
  | String c s' => String (lower_char c) (lower s')
  end.

Fixpoint lstrip (s : string) : string :=
  match s with
  | EmptyString => EmptyString
  | String c s' => if isspace c then lstrip s' else s
  end.

Definition rstrip (s : string) : string :=
  String.rev (lstrip (String.rev s)).

Definition strip (s : string) : string := rstrip (lstrip s).

Fixpoint startswith (p s : string) : bool :=
  match p, s with
  | EmptyString, _ => true
  | String a p', String b s' => if Ascii.eqb a b then startswith p' s' else false
  | String _ _, EmptyString => false
  end.

(** [sub in s] on strings. *)
Fixpoint contains (sub s : string) : bool :=
  startswith sub s ||
  match s with
  | EmptyString => false
  | String _ s' => contains sub s'
  end.

Fixpoint take (n : nat) (s : string) : string :=
  match n, s with
  | S n', String c s' => String c (take n' s')
  | _, _ => EmptyString
  end.

Fixpoint drop (n : nat) (s : string) : string :=
  match n, s with
  | S n', String _ s' => drop n' s'
  | _, _ => s
  end.

Definition len (s : string) : Z := Z.of_nat (String.length s).

(** Index normalisation of slices and of [find]: a negative index
    counts from the end, and the result is clamped to [0, len]. *)
Definition clamp (s : string) (i : Z) : nat :=
  let i' := if (i <? 0)%Z then (i + len s)%Z else i in
  Z.to_nat (Z.min (Z.max 0 i') (len s)).

(** [s[a:b]] *)
Definition slice (s : string) (a b : Z) : string :=
  let a' := clamp s a in
  let b' := clamp s b in
  take (b' - a') (drop a' s).

(** First position at or after [i] where [sub] starts, [s] being the
    text from position [i] on; [-1] when there is none. *)
Fixpoint find_at (sub s : string) (i : nat) : Z :=
  if startswith sub s then Z.of_nat i
  else match s with
       | EmptyString => (-1)%Z
       | String _ s' => find_at sub s' (S i)
       end.

(** [s.find(sub, start)] *)
Definition find (s sub : string) (start : Z) : Z :=
  let start' := if (start <? 0)%Z then Z.max 0 (start + len s) else start in
  if (len s <? start')%Z then (-1)%Z
  else find_at sub (drop (Z.to_nat start') s) (Z.to_nat start').

(** [s.split(sep)] for a one-character separator, generalised to a
    class of separator characters (as [re.split] on a character
    class): always at least one piece. *)
Fixpoint split_on (is_sep : ascii -> bool) (s : string) : list string :=
  match s with
  | EmptyString => [EmptyString]
  | String c s' =>
      if is_sep c then EmptyString :: split_on is_sep s'
      else match split_on is_sep s' with
           | w :: ws => String c w :: ws
           | [] => [String c EmptyString]
           end
  end.

(** [s.split()]: maximal runs of non-blank characters. *)
Definition split_ws (s : string) : list string :=
  filter (fun w => w <> EmptyString) (split_on isspace s).

Fixpoint join (sep : string) (l : list string) : string :=
  match l with
  | [] => EmptyString
  | [x] => x
  | x :: l' => x +:+ sep +:+ join sep l'
  end.

Fixpoint filter_chars (keep : ascii -> bool) (s : string) : string :=
  match s with
  | EmptyString => EmptyString
  | String c s' =>
      if keep c then String c (filter_chars keep s') else filter_chars keep s'
  end.

Definition endswith (suffix s : string) : bool :=
  startswith (String.rev suffix) (String.rev s).

(** Truth value of a string and of a list. *)
Definition truthy (s : string) : bool :=
  match s with EmptyString => false | _ => true end.

Definition nl : string := String (ascii_of_nat 10) EmptyString.
Definition dq : string := String (ascii_of_nat 34) EmptyString.

Definition in_list (w : string) (l : list string) : bool :=
  bool_decide (w ∈ l).

End Py.

(** ** [utils/url_utils.py] *)

Definition stop_words : list string :=
  [ "how"; "what"; "where"; "when"; "why"; "who"; "which"; "can"; "could";
    "would"; "should"; "do"; "does"; "did"; "is"; "are"; "was"; "were";
    "the"; "a"; "an"; "and"; "or"; "but"; "in"; "on"; "at"; "to"; "for";
    "of"; "with"; "by"; "from"; "up"; "about"; "into"; "through"; "during";
    "before"; "after"; "above"; "below"; "between"; "among"; "around" ].

(** [re.sub(r'[^\w\s]', '', question.lower())] then [split()] and the
    filter on stop words and length. *)
Definition extract_question_keywords (question : string) : list string :=
  let question_clean :=
    Py.filter_chars (fun c => Py.isword c || Py.isspace c) (Py.lower question) in
  let words := Py.split_ws question_clean in
  filter (fun word => negb (Py.in_list word stop_words) && (2 <? String.length word))
         words.

Definition web_extensions : list string :=
  [".html"; ".htm"; ".php"; ".asp"; ".jsp"].

(** [re.sub(r'\.(html|htm|php|asp|jsp)$', '', path)]: [$] matches at the
    end of the text and before a final newline. *)
Definition strip_web_extension (path : string) : string :=
  match List.find (fun e => Py.endswith e path) web_extensions with
  | Some e => Py.take (String.length path - String.length e) path
  | None =>
      match List.find (fun e => Py.endswith (e +:+ Py.nl) path) web_extensions with
      | Some e => Py.take (String.length path - String.length e - 1) path +:+ Py.nl
      | None => path
      end
  end.

Definition url_separator (c : ascii) : bool :=
  Py.in_list (String c EmptyString) ["/"; "_"; "-"; "."].

Definition common_words : list string :=
  ["www"; "index"; "home"; "page"; "default"; "main"].

Record link := Link { link_url : string; link_text : string }.

Record scored_url := Scored { su_url : string; su_text : string; su_score : nat }.

Definition helpful_indicators : list string :=
  [ "support"; "help"; "faq"; "contact"; "about";
    "policy"; "return"; "refund"; "shipping";
    "product"; "service"; "documentation"; "guide" ].

(** Insertion into a list sorted by decreasing score, in front of the
    entries with the same score: with [sort_by_score] inserting from the
    right, entries with equal scores keep the order of the input, as
    with [list.sort(key=..., reverse=True)]. *)
Fixpoint insert_by_score (x : scored_url) (l : list scored_url) : list scored_url :=
  match l with
  | [] => [x]
  | y :: l' =>
      if su_score y <=? su_score x then x :: l else y :: insert_by_score x l'
  end.

Definition sort_by_score (l : list scored_url) : list scored_url :=
  foldr insert_by_score [] l.

Section UrlUtils.

(** [urlparse(url).path], from the Python standard library. *)
Variable urlparse_path : string -> string.

Definition get_url_keywords (url : string) : list string :=
  let path := Py.lower (urlparse_path url) in
  let path := strip_web_extension path in
  let keywords := Py.split_on url_separator path in
  filter (fun k => Py.truthy k && negb (Py.in_list k common_words)
                   && (2 <? String.length k))
         keywords.

(** The body of the loop of [find_relevant_urls]: the score of one link. *)
Definition score_link (l : link) (question_keywords : list string) : nat :=
  let url := Py.lower (link_url l) in
  let text := Py.lower (link_text l) in
  let url_keywords := get_url_keywords url in
  let score := 0 in
  let score :=
    foldl (fun score keyword =>
             if existsb (fun uk => Py.contains (Py.lower keyword) uk) url_keywords
             then score + 3 else score)
          score question_keywords in
  let score :=
    foldl (fun score keyword =>
             if Py.contains (Py.lower keyword) text then score + 2 else score)
          score question_keywords in
  foldl (fun score indicator =>
           if Py.contains indicator url || Py.contains indicator text
           then score + 1 else score)
        score helpful_indicators.

Definition find_relevant_urls (links : list link) (question_keywords : list string)
  : list scored_url :=
  let scored_urls :=
    foldl (fun acc l =>
             let score := score_link l question_keywords in
             if 0 <? score
             then acc ++ [Scored (link_url l) (link_text l) score]
             else acc)
          [] links in
  sort_by_score scored_urls.

End UrlUtils.

(** The path of a URL of the form [scheme://netloc/path?query#fragment]:
    the text between the authority and the first [?] or [#]. *)
Definition hier_path (url : string) : string :=
  let i := Py.find url "://" 0 in
  if (i <? 0)%Z then url
  else
    let rest := Py.slice url (i + 3) (Py.len url) in
    let j := Py.find rest "/" 0 in
    if (j <? 0)%Z then EmptyString
    else
      let p := Py.slice rest j (Py.len rest) in
      match Py.split_on (fun c => Py.in_list (String c EmptyString) ["?"; "#"]) p with
      | w :: _ => w
      | [] => p
      end.


(** ** [utils/web_scraper.py] *)

(** What [scrape_website] hands back: the [title], [content], [links]
    and [error] entries of its result ([None] is Python's [None]). *)
Record scrape_result := ScrapeResult {
  sr_title : option string;
  sr_content : option string;
  sr_links : list link;
  sr_error : option string }.

Definition opt_truthy (o : option string) : bool :=
  match o with
  | Some s => Py.truthy s
  | None => false
  end.

Definition nonempty {A} (l : list A) : bool :=
  match l with [] => false | _ => true end.

Definition extract_relevant_content (content : option string) (keywords : list string)
  : option string :=
  match content with
  | None => None
  | Some text =>
      if negb (Py.truthy text) || negb (nonempty keywords) then content
      else
        let sentences := Py.split_on (Ascii.eqb ".") text in
        let relevant_sentences :=
          List.filter
            (fun sentence =>
               existsb (fun keyword => Py.contains (Py.lower keyword) (Py.lower sentence))
                       keywords)
            (map Py.strip sentences) in
        if nonempty relevant_sentences
        then Some (Py.join ". " relevant_sentences)
        else Some (Py.take 1000 text)
  end.

(** ** Values of Python that the decision block can load to *)

(** The values [yaml.safe_load] builds: the scalars (a [!!binary] scalar
    loads as [bytes], a [!!timestamp] as a date or a date with a time,
    given here by its text), sequences, the tuples of [!!pairs] and
    [!!omap], sets and mappings. *)
Local Unset Elimination Schemes.
Inductive pyval : Type :=
| PNone
| PBool (b : bool)
| PInt (n : Z)
| PFloat (repr : string)
| PStr (s : string)
| PList (l : list pyval)
| PDict (d : list (pyval * pyval))
| PBytes (b : string)
| PDate (repr : string)
| PTuple (l : list pyval)
| PSet (l : list pyval).
Local Set Elimination Schemes.

(** A [dict] in insertion order. *)
Abbreviation dict := (list (pyval * pyval)).

Definition is_str (s : string) (v : pyval) : bool :=
  match v with
  | PStr s' => String.eqb s s'
  | _ => false
  end.

(** [d.get(key)] for a string key. *)
Definition dict_get (key : string) (d : dict) : option pyval :=
  snd <$> List.find (fun kv => is_str key (fst kv)) d.

(** [d[key] = v] *)
Fixpoint dict_set (key : string) (v : pyval) (d : dict) : dict :=
  match d with
  | [] => [(PStr key, v)]
  | (k, x) :: d' =>
      if is_str key k then (k, v) :: d' else (k, x) :: dict_set key v d'
  end.

(** The errors that leave a node: the [AttributeError] and the
    [TypeError] of a decision whose [next_url] is not a text, and
    whatever [call_llm] raises. *)
Inductive exn : Type :=
| AttributeError
| TypeError
| CallFailed (msg : string).

Inductive yaml_outcome : Type :=
| YValue (v : pyval)
| YRaise (msg : string).

(** The YAML library and the interpreter's wording of a type error:
    [safe_load] loads a text or raises with a message;
    [type_error_str v] is [str(e)] for the [TypeError] raised when the
    non-mapping [v] is used as the decision mapping. *)
Class Yaml := {
  safe_load : string -> yaml_outcome;
  type_error_str : pyval -> string }.

(** ** The shared store ([flow.py]) *)

Record page_record := PageRecord {
  pr_url : string;
  pr_title : option string;
  pr_content : string }.

Record shared := Shared {
  user_question : string;
  question_keywords : list string;
  urls_to_process : list nat;
  visited_urls : gset nat;
  url_content : list (nat * page_record);
  all_discovered_urls : list string;
  final_answer : option string }.

Definition initialize_shared_store (user_question base_url : string) : shared :=
  {| user_question := user_question;
     question_keywords := extract_question_keywords user_question;
     urls_to_process := [0];
     visited_urls := ∅;
     url_content := [];
     all_discovered_urls := [base_url];
     final_answer := None |}.

Definition set_urls_to_process (l : list nat) (s : shared) : shared :=
  {| user_question := user_question s; question_keywords := question_keywords s;
     urls_to_process := l; visited_urls := visited_urls s;
     url_content := url_content s; all_discovered_urls := all_discovered_urls s;
     final_answer := final_answer s |}.

Definition set_visited_urls (v : gset nat) (s : shared) : shared :=
  {| user_question := user_question s; question_keywords := question_keywords s;
     urls_to_process := urls_to_process s; visited_urls := v;
     url_content := url_content s; all_discovered_urls := all_discovered_urls s;
     final_answer := final_answer s |}.

Definition set_url_content (c : list (nat * page_record)) (s : shared) : shared :=
  {| user_question := user_question s; question_keywords := question_keywords s;
     urls_to_process := urls_to_process s; visited_urls := visited_urls s;
     url_content := c; all_discovered_urls := all_discovered_urls s;
     final_answer := final_answer s |}.

Definition set_all_discovered_urls (l : list string) (s : shared) : shared :=
  {| user_question := user_question s; question_keywords := question_keywords s;
     urls_to_process := urls_to_process s; visited_urls := visited_urls s;
     url_content := url_content s; all_discovered_urls := l;
     final_answer := final_answer s |}.

Definition set_final_answer (a : option string) (s : shared) : shared :=
  {| user_question := user_question s; question_keywords := question_keywords s;
     urls_to_process := urls_to_process s; visited_urls := visited_urls s;
     url_content := url_content s; all_discovered_urls := all_discovered_urls s;
     final_answer := a |}.

(** [l.remove(x)]: the first occurrence goes. *)
Fixpoint list_remove_first (x : nat) (l : list nat) : list nat :=
  match l with
  | [] => []
  | y :: l' => if Nat.eqb x y then l' else y :: list_remove_first x l'
  end.

(** [d[k] = v] on the page records, keyed by URL index. *)
Fixpoint content_put (k : nat) (v : page_record) (d : list (nat * page_record))
  : list (nat * page_record) :=
  match d with
  | [] => [(k, v)]
  | (k', v') :: d' =>
      if Nat.eqb k k' then (k', v) :: d' else (k', v') :: content_put k v d'
  end.

(** The loop that adds newly discovered URLs. *)
Definition discover_links (all_discovered_urls : list string) (links : list link)
  : list string :=
  foldl (fun all l =>
           if Py.in_list (link_url l) all then all else all ++ [link_url l])
        all_discovered_urls links.

(** ** Collaborator calls as events *)

(** [call_llm] returns [message.content] of the first choice, which is a
    text or [None]. *)
Inductive io (A : Type) : Type :=
| Ret (a : A)
| Raise (e : exn)
| ScrapeWebsite (url : string) (k : scrape_result -> io A)
| CallLlm (prompt : string) (k : option string -> io A).

Arguments Ret {A} a.
Arguments Raise {A} e.
Arguments ScrapeWebsite {A} url k.
Arguments CallLlm {A} prompt k.

Fixpoint bind {A B} (t : io A) (f : A -> io B) : io B :=
  match t with
  | Ret a => f a
  | Raise e => Raise e
  | ScrapeWebsite url k => ScrapeWebsite url (fun r => bind (k r) f)
  | CallLlm prompt k => CallLlm prompt (fun r => bind (k r) f)
  end.

(** ** [nodes.py]: the crawl step *)

Module CrawlAndExtract.

Record prep_res := PrepRes {
  url_index : nat;
  url : string;
  keywords : list string }.

Record exec_res := ExecRes {
  er_url_index : nat;
  er_url : string;
  er_title : option string;
  er_content : option string;
  er_links : list link;
  er_error : option string }.

Definition prep (s : shared) : option prep_res :=
  match urls_to_process s with
  | [] => None
  | url_index :: _ =>
      match all_discovered_urls s !! url_index with
      | None => None
      | Some url =>
          Some {| url_index := url_index; url := url;
                  keywords := question_keywords s |}
      end
  end.

(** What [exec] returns once [scrape_website] has answered [result]. *)
Definition exec_on (p : prep_res) (result : scrape_result) : exec_res :=
  if opt_truthy (sr_error result) then
    {| er_url_index := url_index p; er_url := url p;
       er_error := sr_error result; er_content := None;
       er_links := []; er_title := None |}
  else
    let relevant_content := extract_relevant_content (sr_content result) (keywords p) in
    {| er_url_index := url_index p; er_url := url p;
       er_title := sr_title result; er_content := relevant_content;
       er_links := sr_links result; er_error := None |}.

Definition exec (p : option prep_res) : io (option exec_res) :=
  match p with
  | None => Ret None
  | Some p => ScrapeWebsite (url p) (fun result => Ret (Some (exec_on p result)))
  end.

Definition post (s : shared) (p : option prep_res) (e : option exec_res)
  : string * shared :=
  match e with
  | None => ("agent_decide", s)
  | Some e =>
      let url_index := er_url_index e in
      let s :=
        if bool_decide (url_index ∈ urls_to_process s)
        then set_urls_to_process (list_remove_first url_index (urls_to_process s)) s
        else s in
      let s := set_visited_urls ({[url_index]} ∪ visited_urls s) s in
      let s :=
        match er_content e with
        | Some content =>
            if Py.truthy content then
              let s :=
                set_url_content
                  (content_put url_index
                     {| pr_url := er_url e; pr_title := er_title e;
                        pr_content := content |}
                     (url_content s)) s in
              set_all_discovered_urls
                (discover_links (all_discovered_urls s) (er_links e)) s
            else s
        | None => s
        end in
      ("agent_decide", s)
  end.

Definition run (s : shared) : io (string * shared) :=
  let p := prep s in
  bind (exec p) (fun e => Ret (post s p e)).

End CrawlAndExtract.

(** The crawl step when the fetcher answers [result]. *)
Definition crawl_step (s : shared) (result : scrape_result) : string * shared :=
  let p := CrawlAndExtract.prep s in
  CrawlAndExtract.post s p ((fun p => CrawlAndExtract.exec_on p result) <$> p).

(** ** [nodes.py]: the decision step *)

(** An f-string field holding a value that may be [None]. *)
Definition fmt_opt (o : option string) : string := default "None" o.

Definition enumerate {A} (l : list A) : list (nat * A) := imap (fun i x => (i, x)) l.

Module AgentDecision.

Record info := Info {
  ci_url : string;
  ci_title : option string;
  ci_content : string }.

Record prep_res := PrepRes {
  question : string;
  keywords : list string;
  collected_info : list info;
  available_links : list link;
  visited_count : nat;
  pending_urls : nat }.

(** [prep] always returns its six-entry mapping, which is never falsy. *)
Definition prep (s : shared) : option prep_res :=
  let collected_info :=
    map (fun entry =>
           let content_data := snd entry in
           {| ci_url := pr_url content_data; ci_title := pr_title content_data;
              ci_content := Py.take 500 (pr_content content_data) |})
        (url_content s) in
  let available_links :=
    if nonempty (all_discovered_urls s) && negb (bool_decide (visited_urls s = ∅))
    then
      map (fun iu => {| link_url := snd iu; link_text := snd iu |})
          (List.filter (fun iu => negb (bool_decide (fst iu ∈ visited_urls s)))
                       (enumerate (all_discovered_urls s)))
    else [] in
  Some {| question := user_question s;
          keywords := question_keywords s;
          collected_info := collected_info;
          available_links := take 10 available_links;
          visited_count := size (visited_urls s);
          pending_urls := length (urls_to_process s) |}.

Definition info_summary (p : prep_res) : string :=
  Py.join Py.nl
    (map (fun i =>
            "Page: " +:+ fmt_opt (ci_title i) +:+ " (" +:+ ci_url i +:+ ")" +:+ Py.nl
            +:+ "Content: " +:+ ci_content i +:+ Py.nl)
         (collected_info p)).

Definition available_urls (p : prep_res) : string :=
  Py.join Py.nl (map (fun l => "- " +:+ link_url l) (take 5 (available_links p))).

Definition prompt (p : prep_res) : string :=
  Py.join Py.nl
    [ "";
      "You are a web research agent. Analyze the current situation and decide the next action.";
      "";
      "QUESTION: " +:+ question p;
      "";
      "INFORMATION COLLECTED SO FAR:";
      (if Py.truthy (info_summary p) then info_summary p
       else "No information collected yet.");
      "";
      "AVAILABLE URLS TO EXPLORE:";
      (if Py.truthy (available_urls p) then available_urls p
       else "No more URLs available.");
      "";
      "CURRENT STATUS:";
      "- Pages visited: " +:+ pretty (visited_count p);
      "- Available unvisited URLs: " +:+ pretty (length (available_links p));
      "";
      "DECISION CRITERIA:";
      "1. If you have sufficient information to answer the question comprehensively, choose "
        +:+ Py.dq +:+ "answer" +:+ Py.dq;
      "2. If you need more specific information and there are relevant URLs available, choose "
        +:+ Py.dq +:+ "explore" +:+ Py.dq +:+ " ";
      "3. If you've visited 5+ pages without finding relevant info, choose "
        +:+ Py.dq +:+ "answer" +:+ Py.dq;
      "4. If no more URLs are available, choose " +:+ Py.dq +:+ "answer" +:+ Py.dq;
      "";
      "Choose your action and provide reasoning:";
      "";
      "```yaml";
      "action: explore  # or " +:+ Py.dq +:+ "answer" +:+ Py.dq;
      "reasoning: |";
      "  Explain why you chose this action based on the information available";
      "  and what you're looking for";
      "next_url: |";
      "  If action is " +:+ Py.dq +:+ "explore" +:+ Py.dq
        +:+ ", specify which URL from available URLs seems most promising";
      "  and why. Just provide the URL.";
      "```" ].

Definition no_data : dict :=
  [ (PStr "action", PStr "answer"); (PStr "reason", PStr "No data to process") ].

Definition fallback : dict :=
  [ (PStr "action", PStr "answer"); (PStr "reasoning", PStr "Failed to parse decision") ].

Definition parse_error (msg : string) : dict :=
  [ (PStr "action", PStr "answer");
    (PStr "reasoning", PStr ("Error parsing decision: " +:+ msg)) ].

(** The text between the fences of the first [```yaml] block, if both
    fences are found. *)
Definition yaml_block (response : string) : option string :=
  let yaml_start := Py.find response "```yaml" 0 in
  let yaml_end := Py.find response "```" (yaml_start + 7) in
  if negb (yaml_start =? -1)%Z && negb (yaml_end =? -1)%Z
  then Some (Py.strip (Py.slice response (yaml_start + 7) yaml_end))
  else None.

Definition valid_action (v : pyval) : bool :=
  is_str "explore" v || is_str "answer" v.

(** The validation of the loaded value; using a value that is not a
    mapping raises a [TypeError], which the handler turns into the
    error decision. *)
Definition validate `{Yaml} (result : pyval) : dict :=
  match result with
  | PDict d =>
      match dict_get "action" d with
      | Some v => if valid_action v then d else dict_set "action" (PStr "answer") d
      | None => dict_set "action" (PStr "answer") d
      end
  | v => parse_error (type_error_str v)
  end.

(** The [try] block of [exec]: from the model's response to the
    decision. *)
Definition parse_decision `{Yaml} (response : string) : dict :=
  match yaml_block response with
  | Some yaml_content =>
      match safe_load yaml_content with
      | YValue result => validate result
      | YRaise msg => parse_error msg
      end
  | None => validate (PDict fallback)
  end.

(** [str(e)] of the [AttributeError] that [response.find] raises when
    the response is [None]. *)
Definition none_find_error : string := "'NoneType' object has no attribute 'find'".

(** The [try] block with its handler, for what [call_llm] returned: on
    [None] the first [find] raises inside the [try]. *)
Definition parse_reply `{Yaml} (response : option string) : dict :=
  match response with
  | Some text => parse_decision text
  | None => parse_error none_find_error
  end.

Definition exec `{Yaml} (p : option prep_res) : io dict :=
  match p with
  | None => Ret no_data
  | Some p => CallLlm (prompt p) (fun response => Ret (parse_reply response))
  end.

Definition fuzzy_match (next_url url : string) : bool :=
  Py.contains next_url url || Py.contains url next_url.

(** The loop over [enumerate(all_discovered_urls)] with its [break]. *)
Definition find_url_index (next_url : string) (all_discovered_urls : list string)
  : option nat :=
  fst <$> list_find (fun url => fuzzy_match next_url url) all_discovered_urls.

(** What [strip] gives back: a text for a text, bytes for bytes. The
    bytes themselves play no part in what follows. *)
Inductive stripped : Type :=
| StrippedStr (s : string)
| StrippedBytes.

(** [exec_res.get("next_url", "").strip()]: the default is used only
    when the key is missing; of the values a block loads to, only a text
    and bytes have a [strip]. *)
Definition next_url_of (exec_res : dict) : exn + stripped :=
  match default (PStr "") (dict_get "next_url" exec_res) with
  | PStr raw => inr (StrippedStr (Py.strip raw))
  | PBytes _ => inr StrippedBytes
  | _ => inl AttributeError
  end.

(** With bytes for [next_url], the test [next_url in url] of the first
    turn of the loop raises a [TypeError]; without a discovered URL the
    loop is not entered. *)
Definition post (s : shared) (exec_res : dict) : exn + (string * shared) :=
  let action := default (PStr "answer") (dict_get "action" exec_res) in
  if is_str "explore" action then
    match next_url_of exec_res with
    | inr (StrippedStr next_url) =>
        match find_url_index next_url (all_discovered_urls s) with
        | Some next_url_index =>
            if negb (bool_decide (next_url_index ∈ visited_urls s))
               && negb (bool_decide (next_url_index ∈ urls_to_process s))
            then inr ("explore",
                      set_urls_to_process (urls_to_process s ++ [next_url_index]) s)
            else inr ("answer", s)
        | None => inr ("answer", s)
        end
    | inr StrippedBytes =>
        match all_discovered_urls s with
        | [] => inr ("answer", s)
        | _ :: _ => inl TypeError
        end
    | inl e => inl e
    end
  else inr ("answer", s).

Definition run `{Yaml} (s : shared) : io (string * shared) :=
  bind (exec (prep s))
       (fun e => match post s e with
                 | inr r => Ret r
                 | inl err => Raise err
                 end).

End AgentDecision.

(** The decision step when the model answers [response]. *)
Definition decision_step `{Yaml} (s : shared) (response : string)
  : exn + (string * shared) :=
  AgentDecision.post s (AgentDecision.parse_decision response).

(** ** [nodes.py]: the answer step *)

Module DraftAnswer.

Record item := Item {
  it_url : string;
  it_title : option string;
  it_content : string }.

Record prep_res := PrepRes {
  question : string;
  content : list item }.

Definition prep (s : shared) : option prep_res :=
  Some {| question := user_question s;
          content :=
            map (fun entry =>
                   let content_data := snd entry in
                   {| it_url := pr_url content_data;
                      it_title := pr_title content_data;
                      it_content := pr_content content_data |})
                (url_content s) |}.

Definition full_context (p : prep_res) : string :=
  Py.join (Py.nl +:+ "---" +:+ Py.nl)
    (map (fun i =>
            "From " +:+ fmt_opt (it_title i) +:+ " (" +:+ it_url i +:+ "):" +:+ Py.nl
            +:+ it_content i +:+ Py.nl)
         (content p)).

Definition prompt (p : prep_res) : string :=
  Py.join Py.nl
    [ "";
      "Based on the information I gathered from the website, please provide a comprehensive answer to the user's question.";
      "";
      "QUESTION: " +:+ question p;
      "";
      "INFORMATION FROM WEBSITE:";
      full_context p;
      "";
      "Please provide a helpful, accurate answer based on the information above. If the information is incomplete, mention what additional details might be needed. Structure your answer clearly and reference relevant information from the pages when appropriate.";
      "";
      "ANSWER:" ].

(** [exec] returns one of its two fixed texts or what [call_llm]
    returned, which may be [None]. *)
Definition exec (p : option prep_res) : io (option string) :=
  match p with
  | None => Ret (Some "I couldn't find any information to answer your question.")
  | Some p =>
      if nonempty (content p) then CallLlm (prompt p) (fun response => Ret response)
      else Ret (Some "I couldn't find any relevant information on the website to answer your question.")
  end.

Definition post (s : shared) (exec_res : option string) : shared :=
  set_final_answer exec_res s.

Definition run (s : shared) : io shared :=
  bind (exec (prep s)) (fun e => Ret (post s e)).

End DraftAnswer.

(** ** [flow.py]: the wiring of the three nodes and the run *)

Inductive node := crawl_node | agent_node | draft_answer_node.

Record flow := Flow {
  start : node;
  successors : node -> string -> option node }.

(** [crawl_node - "agent_decide" >> agent_node], [agent_node - "explore"
    >> crawl_node], [agent_node - "answer" >> draft_answer_node]. *)
Definition create_chatbot_flow : flow :=
  {| start := crawl_node;
     successors := fun n action =>
       match n with
       | crawl_node =>
           if String.eqb action "agent_decide" then Some agent_node else None
       | agent_node =>
           if String.eqb action "explore" then Some crawl_node
           else if String.eqb action "answer" then Some draft_answer_node
           else None
       | draft_answer_node => None
       end |}.

(** One node of the flow: [prep], [exec], [post]. The action is the value
    [post] returns; [DraftAnswer.post] returns nothing, which the flow
    reads as the action [default]. *)
Definition node_run `{Yaml} (n : node) (s : shared) : io (string * shared) :=
  match n with
  | crawl_node => CrawlAndExtract.run s
  | agent_node => AgentDecision.run s
  | draft_answer_node => bind (DraftAnswer.run s) (fun s' => Ret ("default", s'))
  end.

(** The orchestration loop of the flow: run the current node, follow the
    successor registered for its action, stop when there is none. The
    result lists the nodes run with the action each returned; [None]
    means that the fuel was used up before the flow stopped. *)
Fixpoint orch `{Yaml} (f : flow) (fuel : nat) (curr : node) (s : shared)
  : io (option (list (node * string) * shared)) :=
  match fuel with
  | 0 => Ret None
  | S fuel' =>
      bind (node_run curr s)
           (fun r =>
              let '(action, s') := r in
              match successors f curr action with
              | Some next =>
                  bind (orch f fuel' next s')
                       (fun rest =>
                          Ret ((fun tr => ((curr, action) :: fst tr, snd tr)) <$> rest))
              | None => Ret (Some ([(curr, action)], s'))
              end)
  end.

Definition run_chatbot `{Yaml} (fuel : nat) (user_question base_url : string)
  : io (option (list (node * string) * shared)) :=
  let shared := initialize_shared_store user_question base_url in
  let chatbot_flow := create_chatbot_flow in
  orch chatbot_flow fuel (start chatbot_flow) shared.

(** ** Running a tree against the collaborators *)

(** The collaborators of one run. Their answers may depend on the
    number of calls made before, so that a page or the model may answer
    differently each time; the model call may fail, and what it returns
    is a text or [None]. *)
Record world := World {
  scrape_website : nat -> string -> scrape_result;
  call_llm : nat -> string -> exn + option string }.

Inductive event :=
| EvScrape (url : string)
| EvLlm (prompt : string).

Inductive outcome (A : Type) : Type :=
| Returned (a : A)
| Raised (e : exn).

Arguments Returned {A} a.
Arguments Raised {A} e.

Fixpoint interp {A} (w : world) (t : io A) (log : list event)
  : outcome A * list event :=
  match t with
  | Ret a => (Returned a, log)
  | Raise e => (Raised e, log)
  | ScrapeWebsite url k =>
      interp w (k (scrape_website w (length log) url)) (log ++ [EvScrape url])
  | CallLlm prompt k =>
      match call_llm w (length log) prompt with
      | inr response => interp w (k response) (log ++ [EvLlm prompt])
      | inl e => (Raised e, log ++ [EvLlm prompt])
      end
  end.

Definition is_scrape (e : event) : bool :=
  match e with EvScrape _ => true | EvLlm _ => false end.

Definition is_llm (e : event) : bool :=
  match e with EvLlm _ => true | EvScrape _ => false end.

(** ** States of a run *)

(** The stores a run can be in: the initial store, and what a crawl step
    or a decision step makes of a store, whatever the fetcher and the
    model answer. A decision step that raises leaves no store behind,
    and one whose model returns [None] leaves the store as it is. *)
Inductive reachable `{Yaml} (user_question base_url : string) : shared -> Prop :=
| reach_init :
    reachable user_question base_url (initialize_shared_store user_question base_url)
| reach_crawl s result :
    reachable user_question base_url s ->
    reachable user_question base_url (snd (crawl_step s result))
| reach_decide s response action s' :
    reachable user_question base_url s ->
    decision_step s response = inr (action, s') ->
    reachable user_question base_url s'.

(** The frontier invariant, with the absence of duplicates in the
    pending queue that keeps it. *)
Record frontier_ok (s : shared) : Prop := FrontierOk {
  fo_nodup : NoDup (urls_to_process s);
  fo_disjoint : forall i, i ∈ urls_to_process s -> i ∉ visited_urls s;
  fo_pending_valid : forall i, i ∈ urls_to_process s -> i < length (all_discovered_urls s);
  fo_visited_valid : forall i, i ∈ visited_urls s -> i < length (all_discovered_urls s) }.

(** A small YAML library given by a table of the texts it loads; any
    other text is a syntax error. It stands for [yaml.safe_load] on the
    listed texts. *)
Definition table_yaml (table : list (string * pyval)) : Yaml :=
  {| safe_load := fun text =>
       match List.find (fun e => String.eqb text (fst e)) table with
       | Some e => YValue (snd e)
       | None => YRaise "could not load the block"
       end;
     type_error_str := fun _ => "not a mapping" |}.

(** ** Notions the properties are stated with *)

(** [a] occurs in [b] as a contiguous piece. *)
Definition substring (a b : string) : Prop :=
  exists p q, b = p +:+ a +:+ q.

(** The discovered URL at index [i] is the first one that is a piece
    of [next_url] or has [next_url] as a piece. *)
Definition first_match (next_url : string) (urls : list string) (i : nat) : Prop :=
  (exists url, urls !! i = Some url /\ (substring next_url url \/ substring url next_url))
  /\ forall j url, j < i -> urls !! j = Some url ->
                   ~ (substring next_url url \/ substring url next_url).

(** The first occurrence of every element, in order. *)
Fixpoint keep_first (l : list string) : list string :=
  match l with
  | [] => []
  | x :: l' => x :: filter (fun y => y <> x) (keep_first l')
  end.

(** The discovery list after merging [urls], in the words of the
    frontier store: every URL that is not yet present is appended, in
    the order given, once. *)
Definition merged (all_discovered_urls urls : list string) : list string :=
  all_discovered_urls ++ keep_first (filter (fun u => u ∉ all_discovered_urls) urls).

Definition fetch_failed (result : scrape_result) : bool := opt_truthy (sr_error result).

(** The three ways a response fails to carry a decision. *)
Definition block_absent (response : string) : Prop :=
  AgentDecision.yaml_block response = None.

Definition block_unparseable `{Yaml} (response : string) : Prop :=
  exists text, AgentDecision.yaml_block response = Some text /\
    match safe_load text with
    | YRaise _ => True
    | YValue (PDict _) => False
    | YValue _ => True
    end.

Definition action_invalid `{Yaml} (response : string) : Prop :=
  exists text d, AgentDecision.yaml_block response = Some text /\
    safe_load text = YValue (PDict d) /\
    match dict_get "action" d with
    | Some v => AgentDecision.valid_action v = false
    | None => True
    end.

Definition unparseable `{Yaml} (response : string) : Prop :=
  block_absent response \/ block_unparseable response.


Definition the_one_cycle : list (node * string) :=
  [ (crawl_node, "agent_decide"); (agent_node, "answer"); (draft_answer_node, "default") ].

(** What the crawl step makes of a store whose pending queue starts
    with a valid index. *)
Definition crawled (s : shared) (i : nat) (rest : list nat) : shared :=
  set_visited_urls ({[i]} ∪ visited_urls s) (set_urls_to_process rest s).

Definition recorded (s : shared) (i : nat) (rest : list nat) (u : string)
    (title : option string) (content : string) (links : list link) : shared :=
  set_all_discovered_urls
    (discover_links (all_discovered_urls s) links)
    (set_url_content
       (content_put i {| pr_url := u; pr_title := title; pr_content := content |}
                    (url_content s))
       (crawled s i rest)).

(** [d.get(k)] on the page records. *)
Definition content_get (k : nat) (d : list (nat * page_record)) : option page_record :=
  snd <$> List.find (fun kv => Nat.eqb k (fst kv)) d.

(** Concrete inputs used to exercise the statements. *)
Definition example_store : shared :=
  initialize_shared_store "How do I get a refund?" "https://example.com".

Definition no_yaml : Yaml := table_yaml [].

Definition failed_fetch : scrape_result :=
  {| sr_title := None; sr_content := None; sr_links := [];
     sr_error := Some "Request failed: timed out" |}.

Definition returns_link : link :=
  {| link_url := "https://example.com/support/returns"; link_text := "Returns Policy" |}.

(** A page without text: the fetch succeeds with empty content. *)
Definition empty_page : scrape_result :=
  {| sr_title := Some "No title"; sr_content := Some EmptyString;
     sr_links := [returns_link]; sr_error := None |}.

Definition refund_page : scrape_result :=
  {| sr_title := Some "Shop"; sr_content := Some "Welcome. Ask for a refund here.";
     sr_links := [returns_link; returns_link]; sr_error := None |}.

Definition world_of (result : scrape_result) (response : string) : world :=
  {| scrape_website := fun _ _ => result; call_llm := fun _ _ => inr (Some response) |}.

(** A model that returns no text at all. *)
Definition silent_world (result : scrape_result) : world :=
  {| scrape_website := fun _ _ => result; call_llm := fun _ _ => inr None |}.

(** The prompts of the decision step and of the answer step in a store. *)
Definition decision_prompt (s : shared) : string :=
  match AgentDecision.prep s with
  | Some p => AgentDecision.prompt p
  | None => EmptyString
  end.

Definition answer_prompt (s : shared) : string :=
  match DraftAnswer.prep s with
  | Some p => DraftAnswer.prompt p
  | None => EmptyString
  end.

Definition fence : string := "```".




Definition explore_empty : dict :=
  [ (PStr "action", PStr "explore"); (PStr "reasoning", PStr "look further") ].

(** A store whose seed is neither visited nor pending. *)
Definition unqueued_store : shared := set_urls_to_process [] example_store.

Definition explore_returns : dict :=
  [ (PStr "action", PStr "explore");
    (PStr "next_url", PStr ("/support/returns" +:+ Py.nl)) ].

(** ** Further notions: the relevance scorer *)

(** Every character of [s] satisfies [p]. *)
Fixpoint all_chars (p : ascii -> bool) (s : string) : bool :=
  match s with
  | EmptyString => true
  | String c s' => p c && all_chars p s'
  end.

(** The entry [find_relevant_urls] makes of a link. *)
Definition to_scored (urlparse_path : string -> string) (question_keywords : list string)
    (l : link) : scored_url :=
  Scored (link_url l) (link_text l) (score_link urlparse_path l question_keywords).

Definition score_ge (x y : scored_url) : Prop := su_score y <= su_score x.

Record strategy := Strategy {
  current_page_relevance : bool;
  recommended_urls : list scored_url;
  reasoning : list string }.

Definition prioritize_navigation_strategy (urlparse_path : string -> string)
    (current_url : string) (question_keywords : list string)
    (available_links : list link) : strategy :=
  let current_keywords := get_url_keywords urlparse_path current_url in
  let relevant_urls := find_relevant_urls urlparse_path available_links question_keywords in
  let relevance :=
    existsb (fun kw => Py.in_list kw current_keywords) question_keywords in
  let reasoning := [] in
  let reasoning :=
    if negb relevance
    then reasoning ++ ["Current page doesn't seem directly relevant to the question"]
    else reasoning in
  let reasoning :=
    if nonempty relevant_urls
    then reasoning ++ ["Found " +:+ pretty (length relevant_urls)
                       +:+ " potentially relevant pages"]
    else reasoning ++ ["No obviously relevant pages found, may need to explore systematically"] in
  {| current_page_relevance := relevance;
     recommended_urls := take 3 relevant_urls;
     reasoning := reasoning |}.

(** ** Further notions: the page fetcher ([utils/web_scraper.py]) *)

(** [urljoin] and [urlparse(...).netloc] of the Python standard
    library; each may raise a [ValueError], given here by its text. *)
Class UrlLib := {
  urljoin : string -> string -> string + string;
  urlparse_netloc : string -> string + string }.

(** What [soup.find_all('a', href=True)] yields: the [href] attribute
    and the text of each anchor. *)
Record anchor := Anchor { a_href : string; a_text : string }.

(** What is read off the parsed page, once the script, style, nav,
    footer and header elements are removed: [soup.title] and its
    [string] (either may be [None]), [soup.get_text()] and the anchors. *)
Record soup := Soup {
  soup_title : option (option string);
  soup_text : string;
  soup_anchors : list anchor }.

(** The outcome of [requests.get], [raise_for_status] and
    [BeautifulSoup]: a [requests.RequestException], another exception,
    or the parsed page. *)
Inductive fetched : Type :=
| RequestFailed (msg : string)
| OtherFailure (msg : string)
| Parsed (page : soup).

Module WebScraper.

(** [re.sub(r'\s+', ' ', content)] *)
Fixpoint collapse_ws_from (in_blank : bool) (s : string) : string :=
  match s with
  | EmptyString => EmptyString
  | String c s' =>
      if Py.isspace c
      then if in_blank then collapse_ws_from true s'
           else String " "%char (collapse_ws_from true s')
      else String c (collapse_ws_from false s')
  end.

Definition collapse_ws (s : string) : string := collapse_ws_from false s.

(** The loop over the anchors; [inl] is the text of a [ValueError]. *)
Fixpoint collect_links `{UrlLib} (url : string) (anchors : list anchor)
    (links : list link) : string + list link :=
  match anchors with
  | [] => inr links
  | a :: anchors' =>
      match urljoin url (a_href a) with
      | inl e => inl e
      | inr absolute_url =>
          match urlparse_netloc absolute_url, urlparse_netloc url with
          | inl e, _ => inl e
          | inr _, inl e => inl e
          | inr n1, inr n2 =>
              if String.eqb n1 n2 then
                let link_text := Py.strip (a_text a) in
                if Py.truthy link_text
                   && negb (Py.in_list absolute_url (map link_url links))
                then collect_links url anchors'
                       (links ++ [{| link_url := absolute_url; link_text := link_text |}])
                else collect_links url anchors' links
              else collect_links url anchors' links
          end
      end
  end.

Definition failure (prefix msg : string) : scrape_result :=
  {| sr_title := None; sr_content := None; sr_links := [];
     sr_error := Some (prefix +:+ msg) |}.

(** [scrape_website], from the outcome of the request on.
    [none_strip_error] is the text of the [AttributeError] raised by
    [strip] on a title whose [string] is [None]. *)
Definition scrape_website `{UrlLib} (none_strip_error : string) (url : string)
    (response : fetched) : scrape_result :=
  match response with
  | RequestFailed msg => failure "Request failed: " msg
  | OtherFailure msg => failure "Parsing failed: " msg
  | Parsed page =>
      match (match soup_title page with
             | Some title_string => title_string
             | None => Some "No title"
             end) with
      | None => failure "Parsing failed: " none_strip_error
      | Some title =>
          let title := Py.strip title in
          let content := Py.strip (collapse_ws (soup_text page)) in
          match urlparse_netloc url with
          | inl e => failure "Parsing failed: " e
          | inr _ =>
              match collect_links url (soup_anchors page) [] with
              | inl e => failure "Parsing failed: " e
              | inr links =>
                  {| sr_title := Some title;
                     sr_content := Some (Py.take 5000 content);
                     sr_links := take 20 links;
                     sr_error := None |}
              end
          end
      end
  end.

End WebScraper.

(** A URL library for hierarchical URLs on one host, used to exercise
    the statements: a reference that starts with [/] is put behind the
    authority of the base. *)
Definition authority (url : string) : string :=
  let i := Py.find url "://" 0 in
  if (i <? 0)%Z then EmptyString
  else
    let rest := Py.slice url (i + 3) (Py.len url) in
    match Py.split_on (fun c => Py.in_list (String c EmptyString) ["/"; "?"; "#"]) rest with
    | w :: _ => w
    | [] => rest
    end.

Definition simple_urls : UrlLib :=
  {| urljoin := fun base ref =>
       if Py.startswith "/" ref
       then inr (Py.take (Z.to_nat (Py.find base "://" 0) + 3) base
                 +:+ authority base +:+ ref)
       else inr ref;
     urlparse_netloc := fun url => inr (authority url) |}.

Definition shop_page : soup :=
  {| soup_title := Some (Some " Shop ");
     soup_text := "Welcome.   Ask for a refund here. Returns  Policy";
     soup_anchors :=
       [ Anchor "/support/returns" " Returns Policy ";
         Anchor "/support/returns" "Returns";
         Anchor "https://elsewhere.org/x" "Partner";
         Anchor "/empty" "  " ] |}.

(** ** Further notions: the stores of a run *)

(** What holds of the page records of a run: a record belongs to a
    visited index, carries the discovered URL of that index, and its
    content is not empty. *)
Record records_ok (s : shared) : Prop := RecordsOk {
  ro_visited : forall i r, content_get i (url_content s) = Some r -> i ∈ visited_urls s;
  ro_url : forall i r, content_get i (url_content s) = Some r ->
                       all_discovered_urls s !! i = Some (pr_url r);
  ro_content : forall i r, content_get i (url_content s) = Some r ->
                           pr_content r <> EmptyString }.

Definition no_relevant_information : string :=
  "I couldn't find any relevant information on the website to answer your question.".

(** ** Further notions: responses of the model *)

(** No back quote occurs in [s]. *)
Definition no_backtick (s : string) : bool :=
  all_chars (fun c => negb (Ascii.eqb c "`")) s.

(** A response whose block asks to explore and leaves [next_url]
    without a value, which YAML loads as [None]. *)
Definition null_url_block : string := "action: explore" +:+ Py.nl +:+ "next_url:".

Definition null_url_response : string :=
  fence +:+ "yaml" +:+ Py.nl +:+ null_url_block +:+ Py.nl +:+ fence.

(** The decision that block loads to. *)
Definition explore_null : dict :=
  [ (PStr "action", PStr "explore"); (PStr "next_url", PNone) ].

Definition null_url_yaml : Yaml := table_yaml [ (null_url_block, PDict explore_null) ].

(** A response whose [next_url] is written as a [!!binary] scalar,
    which YAML loads as bytes. *)
Definition bytes_url_block : string :=
  "action: explore" +:+ Py.nl +:+ "next_url: !!binary L3N1cHBvcnQvcmV0dXJucw==".

Definition bytes_url_response : string :=
  fence +:+ "yaml" +:+ Py.nl +:+ bytes_url_block +:+ Py.nl +:+ fence.

Definition explore_bytes : dict :=
  [ (PStr "action", PStr "explore"); (PStr "next_url", PBytes "/support/returns") ].

Definition bytes_url_yaml : Yaml := table_yaml [ (bytes_url_block, PDict explore_bytes) ].

(** What makes a [next_url] that is present raise the error [e] in the
    store [s]: a text never does, bytes do once there is a discovered
    URL to compare them with, every other value does at [strip]. *)
Definition next_url_raises (s : shared) (v : pyval) (e : exn) : Prop :=
  match v with
  | PStr _ => False
  | PBytes _ => e = TypeError /\ all_discovered_urls s <> []
  | _ => e = AttributeError
  end.

(** ** Further notions: the end of a run *)

(** The last call of the log [log] was the model call of the answer
    step in [s], and the model returned [None]. *)
Definition answer_withheld (w : world) (s : shared) (log : list event) : Prop :=
  url_content s <> []
  /\ exists log0, log = log0 ++ [EvLlm (answer_prompt s)]
                  /\ call_llm w (length log0) (answer_prompt s) = inr None.

(** ** Further notions: the chat endpoint ([main.py]) *)

Record chat_request := ChatRequest {
  cr_question : string;
  cr_website_url : string }.

Record explored_url := ExploredUrl {
  ex_url : string;
  ex_title : option string }.

Record chat_response := ChatResponse {
  answer : string;
  status : string;
  pages_visited : nat;
  urls_explored : list explored_url }.

(** What the endpoint gives back: the response, or an [HTTPException]
    with its status code and detail. *)
Inductive http_result : Type :=
| Responded (r : chat_response)
| HTTPException (status_code : nat) (detail : string).

(** What the endpoint takes from its libraries and from the
    interpreter: [str(e)] of an [HTTPException] and of an error raised
    by the run, the text of the validation error for an answer that is
    [None], and the order in which a set of indices is iterated. *)
Class Server := {
  http_exception_str : nat -> string -> string;
  exn_str : exn -> string;
  validation_error_str : string;
  set_order : gset nat -> list nat;
  set_order_perm : forall X, set_order X ≡ₚ elements X }.

(** [website_url.startswith(('http://', 'https://'))], and the prefix
    put in front otherwise. *)
Definition ensure_protocol (website_url : string) : string :=
  if Py.startswith "http://" website_url || Py.startswith "https://" website_url
  then website_url
  else "https://" +:+ website_url.

Definition internal_error (text : string) : http_result :=
  HTTPException 500 ("An error occurred while processing your request: " +:+ text).

Definition explored_urls `{Server} (result : shared) : list explored_url :=
  omap (fun url_idx =>
          (fun content_data =>
             {| ex_url := pr_url content_data; ex_title := pr_title content_data |})
          <$> content_get url_idx (url_content result))
       (set_order (visited_urls result)).

(** [chat_endpoint] against the collaborators [w]: the result ([None]
    when the fuel of the run is used up) and the calls made. Every
    exception raised inside the [try], the two with status 400 included,
    is caught and raised again with status 500. *)
Definition chat_endpoint `{Yaml} `{Server} (w : world) (fuel : nat)
    (request : chat_request) : option http_result * list event :=
  if negb (Py.truthy (Py.strip (cr_question request))) then
    (Some (internal_error (http_exception_str 400 "Question cannot be empty")), [])
  else if negb (Py.truthy (Py.strip (cr_website_url request))) then
    (Some (internal_error (http_exception_str 400 "Website URL cannot be empty")), [])
  else
    let website_url := ensure_protocol (cr_website_url request) in
    match interp w (run_chatbot fuel (cr_question request) website_url) [] with
    | (Raised e, log) => (Some (internal_error (exn_str e)), log)
    | (Returned None, log) => (None, log)
    | (Returned (Some (_, result)), log) =>
        match final_answer result with
        | None => (Some (internal_error validation_error_str), log)
        | Some final_answer =>
            (Some (Responded
                     {| answer := final_answer;
                        status := "success";
                        pages_visited := size (visited_urls result);
                        urls_explored := explored_urls result |}),
             log)
        end
    end.

Definition plain_server : Server :=
  {| http_exception_str := fun code detail => pretty code +:+ ": " +:+ detail;
     exn_str := fun e =>
       match e with
       | AttributeError => "'NoneType' object has no attribute 'strip'"
       | TypeError => "'in <string>' requires string as left operand, not bytes"
       | CallFailed msg => msg
       end;
     validation_error_str := "answer: none is not an allowed value";
     set_order := elements;
     set_order_perm := fun X => reflexivity (elements X) |}.

(** * Properties *)

(** ** Strings *)

Lemma append_nil_l (q : string) : EmptyString +:+ q = q.
Proof. reflexivity. Qed.

Lemma append_cons (a : ascii) (p q : string) : String a p +:+ q = String a (p +:+ q).
Proof. reflexivity. Qed.

Lemma startswith_spec p s : Py.startswith p s = true <-> exists q, s = p +:+ q.
Proof.
  revert s; induction p as [|a p IH]; intros s; simpl.
  - split; [intros _; by exists s | done].
  - destruct s as [|b s].
    + split; [discriminate | intros [q Hq]; discriminate].
    + destruct (Ascii.eqb a b) eqn:E.
      * apply Ascii.eqb_eq in E; subst b. rewrite IH.
        split; intros [q Hq]; exists q; rewrite ?append_cons in *; congruence.
      * apply Ascii.eqb_neq in E.
        split; [discriminate | intros [q Hq]; rewrite append_cons in Hq; congruence].
Qed.

Lemma contains_spec sub s : Py.contains sub s = true <-> substring sub s.
Proof.
  unfold substring. induction s as [|c s IH]; simpl.
  - rewrite orb_false_r, startswith_spec. split.
    + intros [q Hq]. by exists EmptyString, q.
    + intros (p & q & Hq). destruct p; rewrite ?append_cons, ?append_nil_l in *; [eauto | discriminate].
  - rewrite orb_true_iff, startswith_spec, IH. split.
    + intros [[q Hq] | (p & q & Hq)].
      * by exists EmptyString, q.
      * exists (String c p), q. rewrite ?append_cons, ?append_nil_l in *. by rewrite Hq.
    + intros (p & q & Hq). destruct p as [|c' p]; rewrite ?append_cons, ?append_nil_l in *.
      * left; eauto.
      * right. exists p, q. congruence.
Qed.

Lemma contains_empty s : Py.contains EmptyString s = true.
Proof. by destruct s. Qed.

Lemma append_assoc (a b c : string) : (a +:+ b) +:+ c = a +:+ (b +:+ c).
Proof. induction a as [|x a IH]; rewrite ?append_cons, ?append_nil_l in *; [done | by rewrite IH]. Qed.

Lemma contains_app_l sub a b :
  Py.contains sub a = true -> Py.contains sub (a +:+ b) = true.
Proof.
  rewrite !contains_spec. intros (p & q & ->).
  exists p, (q +:+ b). by rewrite !append_assoc.
Qed.

Lemma contains_app_r sub a b :
  Py.contains sub b = true -> Py.contains sub (a +:+ b) = true.
Proof.
  rewrite !contains_spec. intros (p & q & ->).
  exists (a +:+ p), q. by rewrite !append_assoc.
Qed.

Lemma in_list_spec w l : Py.in_list w l = true <-> w ∈ l.
Proof. unfold Py.in_list. apply bool_decide_eq_true. Qed.

Lemma in_list_false w l : Py.in_list w l = false <-> w ∉ l.
Proof. unfold Py.in_list. apply bool_decide_eq_false. Qed.

(** ** The relevance scorer *)

Lemma extract_question_keywords_refund :
  extract_question_keywords "How do I get a refund?" = ["get"; "refund"].
Proof. vm_compute. reflexivity. Qed.

(** C8, as the code has it: the keywords of "How do I get a refund?"
    are "get" and "refund", in this order. "how", "do" and "a" go as
    stop words and "i" as a short token; "get" is no stop word and has
    three letters, so it stays. *)
Theorem C8_keywords_of_refund_question :
  extract_question_keywords "How do I get a refund?" = ["get"; "refund"]
  /\ Py.in_list "get" stop_words = false
  /\ (forall w, w ∈ ["how"; "do"; "a"] -> Py.in_list w stop_words = true)
  /\ String.length "i" <= 2 /\ 2 < String.length "get".
Proof.
  split; [apply extract_question_keywords_refund |].
  split; [by vm_compute |].
  split; [| simpl; lia].
  intros w Hw. apply in_list_spec.
  repeat (apply elem_of_cons in Hw as [-> | Hw]; [by apply in_list_spec; vm_compute |]).
  by apply elem_of_nil in Hw.
Qed.

(** C8 as stated fails: the keyword set is not {"refund"}. *)
Lemma C8_keywords_not_only_refund :
  ~ (forall w, w ∈ extract_question_keywords "How do I get a refund?" <-> w = "refund").
Proof.
  intros Hall. rewrite extract_question_keywords_refund in Hall.
  assert (Hget : "get" = "refund") by (apply Hall, elem_of_cons; by left).
  discriminate Hget.
Qed.

Lemma foldl_count {A} (c : A -> bool) (k : nat) (l : list A) (n : nat) :
  foldl (fun score x => if c x then score + k else score) n l
  = n + k * length (List.filter c l).
Proof.
  revert n; induction l as [|x l IH]; intros n; simpl; [lia |].
  rewrite IH. destruct (c x); simpl; lia.
Qed.

(** The score of a link is the sum the scorer is described by: 3 per
    question keyword found in a keyword of the URL path, 2 per question
    keyword found in the anchor text, 1 per helpful indicator found in
    the URL or the anchor text. *)
Lemma score_link_sum urlparse_path l question_keywords :
  let url := Py.lower (link_url l) in
  let text := Py.lower (link_text l) in
  score_link urlparse_path l question_keywords
  = 3 * length (List.filter
                  (fun keyword =>
                     existsb (fun uk => Py.contains (Py.lower keyword) uk)
                             (get_url_keywords urlparse_path url))
                  question_keywords)
    + 2 * length (List.filter (fun keyword => Py.contains (Py.lower keyword) text)
                              question_keywords)
    + 1 * length (List.filter
                    (fun indicator => Py.contains indicator url || Py.contains indicator text)
                    helpful_indicators).
Proof.
  intros url text. unfold score_link. fold url text.
  by rewrite !(foldl_count _ _ _ _).
Qed.

(** C9: whatever path [urlparse] reads off the URL, the link
    "https://example.com/support/returns" with the text "Returns Policy"
    scores at least 2 against the keywords of "How do I get a refund?":
    the indicators "support", "policy" and "return" alone give 3. *)
Theorem C9_returns_link_scores_at_least_2 (urlparse_path : string -> string) :
  2 <= score_link urlparse_path
         (Link "https://example.com/support/returns" "Returns Policy")
         (extract_question_keywords "How do I get a refund?").
Proof.
  rewrite score_link_sum. simpl link_url. simpl link_text.
  match goal with
  | |- _ <= _ + _ + 1 * length ?l =>
      replace l with ["support"; "policy"; "return"] by (vm_compute; reflexivity)
  end.
  simpl length. lia.
Qed.

(** Links with equal scores keep the order in which they were found. *)
Lemma find_relevant_urls_stable :
  map su_text
      (find_relevant_urls hier_path
         [ Link "https://example.com/a" "About";
           Link "https://example.com/b" "Refund policy";
           Link "https://example.com/c" "Contact";
           Link "https://example.com/d" "Nothing";
           Link "https://example.com/e" "Refund guide" ]
         ["refund"])
  = ["Refund policy"; "Refund guide"; "About"; "Contact"].
Proof. vm_compute. reflexivity. Qed.

(** With the path of a hierarchical URL the score is 3 exactly. *)
Lemma returns_link_score_exact :
  score_link hier_path
    (Link "https://example.com/support/returns" "Returns Policy")
    (extract_question_keywords "How do I get a refund?") = 3.
Proof. vm_compute. reflexivity. Qed.

(** ** The frontier store *)

Lemma filter_ne_comm (u x : string) (l : list string) :
  filter (fun y => y <> u) (filter (fun y => y <> x) l)
  = filter (fun y => y <> x) (filter (fun y => y <> u) l).
Proof.
  rewrite !list_filter_filter. apply list_filter_iff. intros y; tauto.
Qed.

Lemma filter_ne_idemp (u : string) (l : list string) :
  filter (fun y => y <> u) (filter (fun y => y <> u) l) = filter (fun y => y <> u) l.
Proof.
  rewrite list_filter_filter. apply list_filter_iff. intros y; tauto.
Qed.

Lemma keep_first_filter (u : string) (l : list string) :
  keep_first (filter (fun y => y <> u) l) = filter (fun y => y <> u) (keep_first l).
Proof.
  induction l as [|x l IH]; [done |].
  destruct (decide (x = u)) as [-> | Hne].
  - rewrite filter_cons_False by (intros H; by apply H).
    simpl keep_first. rewrite filter_cons_False by (intros H; by apply H).
    by rewrite filter_ne_idemp.
  - rewrite filter_cons_True by done. simpl keep_first.
    rewrite filter_cons_True by done. by rewrite IH, filter_ne_comm.
Qed.

Lemma discover_links_cons all l links :
  discover_links all (l :: links)
  = discover_links (if Py.in_list (link_url l) all then all else all ++ [link_url l]) links.
Proof. reflexivity. Qed.

(** The loop of the crawl step is the merge of the frontier store. *)
Lemma discover_links_merged all links :
  discover_links all links = merged all (map link_url links).
Proof.
  unfold merged. revert all. induction links as [|l links IH]; intros all.
  - simpl. by rewrite app_nil_r.
  - rewrite discover_links_cons. simpl map.
    destruct (Py.in_list (link_url l) all) eqn:Hin.
    + apply in_list_spec in Hin. rewrite IH.
      by rewrite filter_cons_False by (intros H; by apply H).
    + apply in_list_false in Hin. rewrite IH.
      rewrite filter_cons_True by done. simpl keep_first.
      rewrite <- keep_first_filter, list_filter_filter, <- app_assoc. simpl.
      do 3 f_equal. apply list_filter_iff. intros u.
      rewrite elem_of_app, list_elem_of_singleton. tauto.
Qed.

Lemma keep_first_elem_of (u : string) l : u ∈ keep_first l <-> u ∈ l.
Proof.
  induction l as [|x l IH]; [done |]. simpl.
  rewrite !elem_of_cons, list_elem_of_filter, IH.
  destruct (decide (u = x)); tauto.
Qed.

Lemma keep_first_NoDup l : NoDup (keep_first l).
Proof.
  induction l as [|x l IH]; simpl; [constructor |].
  apply NoDup_cons. split.
  - rewrite list_elem_of_filter. intros [H _]. by apply H.
  - by apply NoDup_filter.
Qed.

Lemma discover_links_length all links :
  length all <= length (discover_links all links).
Proof. rewrite discover_links_merged. unfold merged. rewrite length_app. lia. Qed.

Lemma discover_links_lookup all links i u :
  all !! i = Some u -> discover_links all links !! i = Some u.
Proof. rewrite discover_links_merged. apply lookup_app_l_Some. Qed.

Lemma list_remove_first_head i rest : list_remove_first i (i :: rest) = rest.
Proof. simpl. by rewrite Nat.eqb_refl. Qed.

Lemma prep_head s i rest u :
  urls_to_process s = i :: rest -> all_discovered_urls s !! i = Some u ->
  CrawlAndExtract.prep s
  = Some {| CrawlAndExtract.url_index := i; CrawlAndExtract.url := u;
            CrawlAndExtract.keywords := question_keywords s |}.
Proof. intros Hq Hu. unfold CrawlAndExtract.prep. by rewrite Hq, Hu. Qed.

Lemma crawl_step_failed s i rest u result :
  urls_to_process s = i :: rest -> all_discovered_urls s !! i = Some u ->
  fetch_failed result = true ->
  crawl_step s result = ("agent_decide", crawled s i rest).
Proof.
  intros Hq Hu Hfail. unfold crawl_step. rewrite (prep_head _ _ _ _ Hq Hu).
  unfold fetch_failed in Hfail.
  simpl. unfold CrawlAndExtract.exec_on, CrawlAndExtract.post. rewrite Hfail. simpl.
  rewrite Hq, bool_decide_eq_true_2 by (apply elem_of_cons; by left).
  simpl. by rewrite Nat.eqb_refl.
Qed.

Lemma crawl_step_succeeded s i rest u result :
  urls_to_process s = i :: rest -> all_discovered_urls s !! i = Some u ->
  fetch_failed result = false ->
  crawl_step s result
  = ("agent_decide",
     match extract_relevant_content (sr_content result) (question_keywords s) with
     | Some content =>
         if Py.truthy content
         then recorded s i rest u (sr_title result) content (sr_links result)
         else crawled s i rest
     | None => crawled s i rest
     end).
Proof.
  intros Hq Hu Hok. unfold crawl_step. rewrite (prep_head _ _ _ _ Hq Hu).
  unfold fetch_failed in Hok.
  simpl. unfold CrawlAndExtract.exec_on, CrawlAndExtract.post. rewrite Hok. simpl.
  rewrite Hq, bool_decide_eq_true_2 by (apply elem_of_cons; by left).
  simpl. rewrite Nat.eqb_refl.
  destruct (extract_relevant_content _ _) as [content|]; [| done].
  by destruct (Py.truthy content).
Qed.

Lemma crawl_step_idle s result :
  CrawlAndExtract.prep s = None -> crawl_step s result = ("agent_decide", s).
Proof. intros Hp. unfold crawl_step. by rewrite Hp. Qed.

Lemma prep_cases s :
  CrawlAndExtract.prep s = None
  \/ exists i rest u, urls_to_process s = i :: rest /\ all_discovered_urls s !! i = Some u.
Proof.
  unfold CrawlAndExtract.prep.
  destruct (urls_to_process s) as [|i rest]; [by left |].
  destruct (all_discovered_urls s !! i) as [u|] eqn:Hu; [right; eauto | by left].
Qed.

(** ** The frontier invariant *)

Lemma frontier_ok_init q b : frontier_ok (initialize_shared_store q b).
Proof.
  split; simpl.
  - apply NoDup_singleton.
  - intros i _. apply not_elem_of_empty.
  - intros i Hi. apply list_elem_of_singleton in Hi as ->. lia.
  - intros i Hi. by apply not_elem_of_empty in Hi.
Qed.

Lemma frontier_ok_crawled s i rest :
  frontier_ok s -> urls_to_process s = i :: rest ->
  frontier_ok (crawled s i rest).
Proof.
  intros [Hnd Hdis Hpv Hvv] Hq. rewrite Hq in Hnd, Hdis, Hpv.
  apply NoDup_cons in Hnd as [Hi Hnd].
  split; simpl; [done | | |].
  - intros j Hj. rewrite elem_of_union, elem_of_singleton.
    intros [-> | Hv]; [done |].
    apply (Hdis j); [apply elem_of_cons; by right | done].
  - intros j Hj. apply Hpv, elem_of_cons. by right.
  - intros j. rewrite elem_of_union, elem_of_singleton.
    intros [-> | Hv]; [apply Hpv, elem_of_cons; by left | by apply Hvv].
Qed.

Lemma frontier_ok_grow s c l :
  frontier_ok s -> length (all_discovered_urls s) <= length l ->
  frontier_ok (set_all_discovered_urls l (set_url_content c s)).
Proof.
  intros [Hnd Hdis Hpv Hvv] Hlen. split; simpl; [done | done | |].
  - intros j Hj. specialize (Hpv j Hj). lia.
  - intros j Hj. specialize (Hvv j Hj). lia.
Qed.

Lemma frontier_ok_crawl_step s result :
  frontier_ok s -> frontier_ok (snd (crawl_step s result)).
Proof.
  intros Hok. destruct (prep_cases s) as [Hidle | (i & rest & u & Hq & Hu)].
  - by rewrite crawl_step_idle.
  - pose proof (frontier_ok_crawled s i rest Hok Hq) as Hc.
    destruct (fetch_failed result) eqn:Hf.
    + by rewrite (crawl_step_failed s i rest u).
    + rewrite (crawl_step_succeeded s i rest u) by done. simpl.
      destruct (extract_relevant_content _ _) as [content|]; [| done].
      destruct (Py.truthy content); [| done].
      apply frontier_ok_grow; [done |]. apply discover_links_length.
Qed.

Lemma find_url_index_Some next_url urls i :
  AgentDecision.find_url_index next_url urls = Some i <->
  exists url, urls !! i = Some url
    /\ AgentDecision.fuzzy_match next_url url = true
    /\ forall j url', urls !! j = Some url' -> j < i ->
                      AgentDecision.fuzzy_match next_url url' = false.
Proof.
  unfold AgentDecision.find_url_index. split.
  - destruct (list_find _ urls) as [[i' url]|] eqn:Hfind; [| discriminate].
    simpl. intros [= ->]. apply list_find_Some in Hfind as (Hl & Hm & Hfirst).
    exists url. split; [done |]. split; [by apply Is_true_true |].
    intros j url' Hj Hlt. specialize (Hfirst j url' Hj Hlt).
    by apply negb_prop_intro, Is_true_true, negb_true_iff in Hfirst.
  - intros (url & Hl & Hm & Hfirst).
    assert (list_find (fun url => AgentDecision.fuzzy_match next_url url) urls
            = Some (i, url)) as ->; [| done].
    apply list_find_Some. split; [done |]. split; [by apply Is_true_true |].
    intros j url' Hj Hlt. rewrite (Hfirst j url' Hj Hlt). auto.
Qed.

Lemma find_url_index_None next_url urls :
  AgentDecision.find_url_index next_url urls = None <->
  forall url, url ∈ urls -> AgentDecision.fuzzy_match next_url url = false.
Proof.
  unfold AgentDecision.find_url_index. split.
  - destruct (list_find _ urls) as [[i' url]|] eqn:Hfind; [discriminate |].
    intros _ url Hurl. apply list_find_None in Hfind.
    rewrite Forall_forall in Hfind. specialize (Hfind url Hurl).
    by apply negb_prop_intro, Is_true_true, negb_true_iff in Hfind.
  - intros Hall.
    assert (list_find (fun url => AgentDecision.fuzzy_match next_url url) urls = None)
      as ->; [| done].
    apply list_find_None, Forall_forall. intros url Hurl.
    rewrite (Hall url Hurl). auto.
Qed.

(** The decision step either leaves the store as it is or appends one
    index to the pending queue. *)
Lemma post_cases s d action s' :
  AgentDecision.post s d = inr (action, s') ->
  (action = "answer" /\ s' = s)
  \/ exists u i, AgentDecision.next_url_of d = inr (AgentDecision.StrippedStr u)
       /\ AgentDecision.find_url_index u (all_discovered_urls s) = Some i
       /\ (i ∉ visited_urls s) /\ (i ∉ urls_to_process s)
       /\ action = "explore"
       /\ s' = set_urls_to_process (urls_to_process s ++ [i]) s.
Proof.
  unfold AgentDecision.post.
  destruct (is_str "explore" _); [| intros [= <- <-]; by left].
  destruct (AgentDecision.next_url_of d) as [e | [u |]]; [discriminate | |].
  2: { destruct (all_discovered_urls s); [intros [= <- <-]; by left | discriminate]. }
  destruct (AgentDecision.find_url_index u _) as [i|] eqn:Hfind;
    [| intros [= <- <-]; by left].
  destruct (bool_decide (i ∈ visited_urls s)) eqn:Hv; simpl;
    [intros [= <- <-]; by left |].
  destruct (bool_decide (i ∈ urls_to_process s)) eqn:Hp; simpl;
    [intros [= <- <-]; by left |].
  intros [= <- <-]. right. exists u, i.
  apply bool_decide_eq_false in Hv, Hp. by repeat split.
Qed.

Lemma frontier_ok_post s d action s' :
  frontier_ok s -> AgentDecision.post s d = inr (action, s') -> frontier_ok s'.
Proof.
  intros Hok Hpost.
  apply post_cases in Hpost as [[_ ->] | (u & i & _ & Hfind & Hv & Hp & _ & ->)];
    [done |].
  destruct Hok as [Hnd Hdis Hpv Hvv].
  apply find_url_index_Some in Hfind as (url & Hl & _).
  apply lookup_lt_Some in Hl.
  split; simpl; [| | | done].
  - apply NoDup_app. split; [done |]. split; [| apply NoDup_singleton].
    intros j Hj Hj'. apply list_elem_of_singleton in Hj' as ->. done.
  - intros j. rewrite elem_of_app, list_elem_of_singleton.
    intros [Hj | ->]; [by apply Hdis | done].
  - intros j. rewrite elem_of_app, list_elem_of_singleton.
    intros [Hj | ->]; [by apply Hpv | done].
Qed.

Lemma reachable_frontier_ok `{Yaml} q b s : reachable q b s -> frontier_ok s.
Proof.
  induction 1 as [| s result _ IH | s response action s' _ IH Hstep].
  - apply frontier_ok_init.
  - by apply frontier_ok_crawl_step.
  - exact (frontier_ok_post s _ action s' IH Hstep).
Qed.

(** The discovery list only grows at its end, so the seed stays at
    index 0. *)
Lemma reachable_seed `{Yaml} q b s : reachable q b s -> all_discovered_urls s !! 0 = Some b.
Proof.
  induction 1 as [| s result _ IH | s response action s' _ IH Hstep].
  - done.
  - destruct (prep_cases s) as [Hidle | (i & rest & u & Hq & Hu)].
    + by rewrite crawl_step_idle.
    + destruct (fetch_failed result) eqn:Hf.
      * by rewrite (crawl_step_failed s i rest u).
      * rewrite (crawl_step_succeeded s i rest u) by done. simpl.
        destruct (extract_relevant_content _ _) as [content|]; [| done].
        destruct (Py.truthy content); [| done].
        simpl. by apply discover_links_lookup.
  - apply post_cases in Hstep as [[_ ->] | (u & i & _ & _ & _ & _ & _ & ->)]; done.
Qed.

(** C2: in every store reachable from the initial one by crawl steps
    and decision steps, no index is both pending and visited, and every
    pending or visited index is below the length of the discovery
    list. *)
Theorem C2_frontier_invariant `{Yaml} (q b : string) (s : shared) :
  reachable q b s ->
  (forall i, ~ (i ∈ urls_to_process s /\ i ∈ visited_urls s))
  /\ (forall i, i ∈ urls_to_process s \/ i ∈ visited_urls s ->
                i < length (all_discovered_urls s)).
Proof.
  intros Hr. destruct (reachable_frontier_ok q b s Hr) as [_ Hdis Hpv Hvv].
  split.
  - intros i [Hp Hv]. by apply (Hdis i).
  - intros i [Hp | Hv]; [by apply Hpv | by apply Hvv].
Qed.

Lemma C2_frontier_invariant_witness :
  reachable (H := no_yaml) "How do I get a refund?" "https://example.com"
            (snd (crawl_step example_store refund_page))
  /\ (forall i, ~ (i ∈ urls_to_process (snd (crawl_step example_store refund_page))
                   /\ i ∈ visited_urls (snd (crawl_step example_store refund_page))))
  /\ (forall i, i ∈ urls_to_process (snd (crawl_step example_store refund_page))
                \/ i ∈ visited_urls (snd (crawl_step example_store refund_page)) ->
                i < length (all_discovered_urls (snd (crawl_step example_store refund_page)))).
Proof.
  assert (Hr : reachable (H := no_yaml) "How do I get a refund?" "https://example.com"
                 (snd (crawl_step example_store refund_page)))
    by (apply reach_crawl, reach_init).
  split; [exact Hr |].
  exact (@C2_frontier_invariant no_yaml _ _ _ Hr).
Defined.

(** ** The crawl step *)

Lemma interp_bind {A B} (w : world) (t : io A) (f : A -> io B) (log : list event) :
  interp w (bind t f) log
  = match interp w t log with
    | (Returned a, log') => interp w (f a) log'
    | (Raised e, log') => (Raised e, log')
    end.
Proof.
  revert log. induction t as [a | e | url k IH | prompt k IH]; intros log; simpl.
  - done.
  - done.
  - apply IH.
  - destruct (call_llm w (length log) prompt); [done | apply IH].
Qed.

Lemma interp_crawl_run (w : world) (s : shared) (log : list event) :
  interp w (CrawlAndExtract.run s) log
  = match CrawlAndExtract.prep s with
    | Some p =>
        (Returned (crawl_step s (scrape_website w (length log) (CrawlAndExtract.url p))),
         log ++ [EvScrape (CrawlAndExtract.url p)])
    | None => (Returned ("agent_decide", s), log)
    end.
Proof.
  unfold CrawlAndExtract.run, crawl_step.
  by destruct (CrawlAndExtract.prep s) as [p|].
Qed.

(** C3: when the fetch of the pending index at the head of the queue
    fails, the crawl step returns [agent_decide] (which leads to the
    decision step) instead of raising; the index is then visited and no
    longer pending, no page record is stored and nothing else in the
    store changes. *)
Theorem C3_fetch_failure_marks_visited `{Yaml} (w : world) (q b : string)
    (s : shared) (i : nat) (rest : list nat) (u : string) :
  reachable q b s ->
  urls_to_process s = i :: rest ->
  all_discovered_urls s !! i = Some u ->
  fetch_failed (scrape_website w 0 u) = true ->
  exists s',
    interp w (node_run crawl_node s) [] = (Returned ("agent_decide", s'), [EvScrape u])
    /\ successors create_chatbot_flow crawl_node "agent_decide" = Some agent_node
    /\ i ∈ visited_urls s'
    /\ (i ∉ urls_to_process s')
    /\ content_get i (url_content s') = content_get i (url_content s)
    /\ s' = set_visited_urls ({[i]} ∪ visited_urls s) (set_urls_to_process rest s).
Proof.
  intros Hr Hq Hu Hfail. exists (crawled s i rest).
  destruct (reachable_frontier_ok q b s Hr) as [Hnd _ _ _].
  rewrite Hq in Hnd. apply NoDup_cons in Hnd as [Hi _].
  split.
  { simpl node_run. rewrite interp_crawl_run, (prep_head s i rest u Hq Hu). simpl.
    by rewrite (crawl_step_failed s i rest u). }
  repeat split; simpl; try done.
  apply elem_of_union_l, elem_of_singleton. done.
Qed.

Lemma C3_fetch_failure_marks_visited_witness :
  reachable (H := no_yaml) "How do I get a refund?" "https://example.com" example_store
  /\ exists s',
    interp (world_of failed_fetch "") (node_run (H := no_yaml) crawl_node example_store) []
    = (Returned ("agent_decide", s'), [EvScrape "https://example.com"])
    /\ successors create_chatbot_flow crawl_node "agent_decide" = Some agent_node
    /\ 0 ∈ visited_urls s'
    /\ (0 ∉ urls_to_process s')
    /\ content_get 0 (url_content s') = content_get 0 (url_content example_store)
    /\ s' = set_visited_urls ({[0]} ∪ visited_urls example_store)
                             (set_urls_to_process [] example_store).
Proof.
  split; [apply reach_init |].
  apply (@C3_fetch_failure_marks_visited no_yaml (world_of failed_fetch "")
           "How do I get a refund?" "https://example.com" example_store 0 []
           "https://example.com");
    [apply reach_init | reflexivity | reflexivity | reflexivity].
Defined.

Lemma content_get_put i v d : content_get i (content_put i v d) = Some v.
Proof.
  unfold content_get. induction d as [|[k x] d IH]; simpl.
  - by rewrite Nat.eqb_refl.
  - destruct (Nat.eqb i k) eqn:E; simpl; rewrite E; [done | apply IH].
Qed.

(** C4, as the code has it: after a successful fetch of the pending
    index at the head of the queue whose extracted relevant content is
    not empty, the index is visited, its page record is stored, and the
    discovery list is the old one followed by the returned link URLs
    that were not yet present, in the order given, each once. *)
Theorem C4_success_records_and_merges (s : shared) (i : nat) (rest : list nat)
    (u : string) (result : scrape_result) (content : string) :
  urls_to_process s = i :: rest ->
  all_discovered_urls s !! i = Some u ->
  fetch_failed result = false ->
  extract_relevant_content (sr_content result) (question_keywords s) = Some content ->
  content <> EmptyString ->
  exists s',
    crawl_step s result = ("agent_decide", s')
    /\ visited_urls s' = {[i]} ∪ visited_urls s
    /\ urls_to_process s' = rest
    /\ content_get i (url_content s')
       = Some {| pr_url := u; pr_title := sr_title result; pr_content := content |}
    /\ all_discovered_urls s'
       = merged (all_discovered_urls s) (map link_url (sr_links result))
    /\ (forall l, l ∈ sr_links result -> link_url l ∈ all_discovered_urls s').
Proof.
  intros Hq Hu Hok Hc Hne.
  exists (recorded s i rest u (sr_title result) content (sr_links result)).
  split.
  { rewrite (crawl_step_succeeded s i rest u) by done. rewrite Hc.
    by destruct content. }
  simpl. repeat split; try done.
  - apply content_get_put.
  - apply discover_links_merged.
  - intros l Hl. rewrite discover_links_merged. unfold merged.
    destruct (decide (link_url l ∈ all_discovered_urls s)) as [Hin | Hnin].
    + apply elem_of_app. by left.
    + apply elem_of_app. right. apply keep_first_elem_of, list_elem_of_filter.
      split; [done |]. apply list_elem_of_fmap. eauto.
Qed.

Lemma C4_success_records_and_merges_witness :
  exists s',
    crawl_step example_store refund_page = ("agent_decide", s')
    /\ visited_urls s' = {[0]} ∪ visited_urls example_store
    /\ urls_to_process s' = []
    /\ content_get 0 (url_content s')
       = Some {| pr_url := "https://example.com"; pr_title := Some "Shop";
                 pr_content := "Ask for a refund here" |}
    /\ all_discovered_urls s'
       = merged (all_discovered_urls example_store)
                (map link_url (sr_links refund_page))
    /\ (forall l, l ∈ sr_links refund_page -> link_url l ∈ all_discovered_urls s').
Proof.
  apply (C4_success_records_and_merges example_store 0 [] "https://example.com"
           refund_page "Ask for a refund here");
    [reflexivity | reflexivity | reflexivity | vm_compute; reflexivity | discriminate].
Defined.

(** C4 as stated fails: a successful fetch whose relevant content is
    the empty string leaves no page record and merges none of its
    links. *)
Lemma C4_empty_content_not_merged :
  fetch_failed empty_page = false
  /\ extract_relevant_content (sr_content empty_page) (question_keywords example_store)
     = Some EmptyString
  /\ content_get 0 (url_content (snd (crawl_step example_store empty_page))) = None
  /\ all_discovered_urls (snd (crawl_step example_store empty_page))
     <> merged (all_discovered_urls example_store) (map link_url (sr_links empty_page)).
Proof.
  split; [reflexivity |]. split; [reflexivity |]. split; [reflexivity |].
  vm_compute. discriminate.
Qed.

(** ** The decision step: transitions *)

Lemma fuzzy_match_spec next_url url :
  AgentDecision.fuzzy_match next_url url = true
  <-> substring next_url url \/ substring url next_url.
Proof.
  unfold AgentDecision.fuzzy_match. by rewrite orb_true_iff, !contains_spec.
Qed.

Lemma fuzzy_match_false next_url url :
  AgentDecision.fuzzy_match next_url url = false
  <-> ~ (substring next_url url \/ substring url next_url).
Proof. rewrite <- fuzzy_match_spec. by destruct (AgentDecision.fuzzy_match _ _). Qed.

Lemma first_match_find next_url urls i :
  first_match next_url urls i <-> AgentDecision.find_url_index next_url urls = Some i.
Proof.
  rewrite find_url_index_Some. unfold first_match. split.
  - intros [(url & Hl & Hm) Hfirst]. exists url. split; [done |].
    split; [by apply fuzzy_match_spec |].
    intros j url' Hj Hlt. apply fuzzy_match_false. by apply (Hfirst j).
  - intros (url & Hl & Hm & Hfirst). split.
    + exists url. split; [done | by apply fuzzy_match_spec].
    + intros j url' Hlt Hj. apply fuzzy_match_false. by apply (Hfirst j).
Qed.

Lemma post_explore s d next_url :
  dict_get "action" d = Some (PStr "explore") ->
  AgentDecision.next_url_of d = inr (AgentDecision.StrippedStr next_url) ->
  AgentDecision.post s d
  = match AgentDecision.find_url_index next_url (all_discovered_urls s) with
    | Some i =>
        if negb (bool_decide (i ∈ visited_urls s))
           && negb (bool_decide (i ∈ urls_to_process s))
        then inr ("explore", set_urls_to_process (urls_to_process s ++ [i]) s)
        else inr ("answer", s)
    | None => inr ("answer", s)
    end.
Proof. intros Ha Hn. unfold AgentDecision.post. by rewrite Ha, Hn. Qed.

Lemma post_answer s d :
  dict_get "action" d = Some (PStr "answer") -> AgentDecision.post s d = inr ("answer", s).
Proof. intros Ha. unfold AgentDecision.post. by rewrite Ha. Qed.

(** An [explore] decision whose [next_url] has no [strip] raises, in
    whatever store. *)
Lemma post_explore_raises s d :
  dict_get "action" d = Some (PStr "explore") ->
  AgentDecision.next_url_of d = inl AttributeError ->
  AgentDecision.post s d = inl AttributeError.
Proof. intros Ha Hn. unfold AgentDecision.post. by rewrite Ha, Hn. Qed.

(** An [explore] decision whose [next_url] is bytes raises as soon as
    there is a discovered URL to compare it with. *)
Lemma post_explore_bytes s d :
  dict_get "action" d = Some (PStr "explore") ->
  AgentDecision.next_url_of d = inr AgentDecision.StrippedBytes ->
  AgentDecision.post s d
  = match all_discovered_urls s with
    | [] => inr ("answer", s)
    | _ :: _ => inl TypeError
    end.
Proof. intros Ha Hn. unfold AgentDecision.post. by rewrite Ha, Hn. Qed.

(** For a decision with action [explore] whose [next_url] is missing or
    a text (read trimmed, as the step reads it): if no discovered URL is
    a piece of it or has it as a piece, or if the first such URL is
    already visited or pending, the step returns [answer] and leaves the
    store as it is; if the first such URL is neither visited nor pending,
    its index, and nothing else, is appended to the pending queue and the
    step returns [explore]. *)
Lemma explore_transition (s : shared) (d : dict) (next_url : string) :
  dict_get "action" d = Some (PStr "explore") ->
  AgentDecision.next_url_of d = inr (AgentDecision.StrippedStr next_url) ->
  ((forall url, url ∈ all_discovered_urls s ->
                ~ (substring next_url url \/ substring url next_url)) ->
   AgentDecision.post s d = inr ("answer", s))
  /\ (forall i, first_match next_url (all_discovered_urls s) i ->
                i ∈ visited_urls s \/ i ∈ urls_to_process s ->
                AgentDecision.post s d = inr ("answer", s))
  /\ (forall i, first_match next_url (all_discovered_urls s) i ->
                i ∉ visited_urls s -> i ∉ urls_to_process s ->
                AgentDecision.post s d
                = inr ("explore", set_urls_to_process (urls_to_process s ++ [i]) s)).
Proof.
  intros Ha Hn. rewrite (post_explore s d next_url Ha Hn). repeat split.
  - intros Hnone.
    assert (AgentDecision.find_url_index next_url (all_discovered_urls s) = None) as ->;
      [| done].
    apply find_url_index_None. intros url Hurl. apply fuzzy_match_false. by apply Hnone.
  - intros i Hi Hbusy. apply first_match_find in Hi. rewrite Hi.
    destruct Hbusy as [Hv | Hp].
    + by rewrite (bool_decide_eq_true_2 _ Hv).
    + rewrite (bool_decide_eq_true_2 _ Hp). by rewrite andb_false_r.
  - intros i Hi Hv Hp. apply first_match_find in Hi. rewrite Hi.
    by rewrite (bool_decide_eq_false_2 _ Hv), (bool_decide_eq_false_2 _ Hp).
Qed.

(** On the store after the first crawl the decision "explore
    /support/returns" queues index 1. *)
Lemma explore_returns_queues_1 :
  AgentDecision.post (snd (crawl_step example_store refund_page)) explore_returns
  = inr ("explore",
         set_urls_to_process [1] (snd (crawl_step example_store refund_page))).
Proof. vm_compute. reflexivity. Qed.

(** C6: the [explore] decision whose [next_url] is [None] is what the
    decision step makes of a response whose block leaves [next_url:]
    without a value. In every store, also one in which no discovered URL
    could match, [post] raises an [AttributeError] on it: it returns
    neither [answer] nor [explore], and nothing is queued. *)
Theorem C6_null_next_url_raises (s : shared) :
  AgentDecision.parse_decision (H := null_url_yaml) null_url_response = explore_null
  /\ dict_get "action" explore_null = Some (PStr "explore")
  /\ dict_get "next_url" explore_null = Some PNone
  /\ AgentDecision.post s explore_null = inl AttributeError
  /\ (forall action s', AgentDecision.post s explore_null <> inr (action, s')).
Proof.
  assert (Hpost : AgentDecision.post s explore_null = inl AttributeError)
    by (by apply post_explore_raises).
  split; [by vm_compute |]. split; [done |]. split; [done |]. split; [done |].
  intros action s'. by rewrite Hpost.
Qed.

(** The same decision with bytes for [next_url] raises a [TypeError] in
    every store of a run. *)
Lemma explore_bytes_raises `{Yaml} q b s :
  reachable q b s -> AgentDecision.post s explore_bytes = inl TypeError.
Proof.
  intros Hr. rewrite (post_explore_bytes s explore_bytes) by done.
  pose proof (reachable_seed q b s Hr) as Hseed.
  by destruct (all_discovered_urls s).
Qed.

(** In a store with a first discovered URL, an [explore] decision whose
    [next_url] is missing, or is a text that is empty once trimmed,
    matches index 0, because the empty text is a piece of every URL;
    index 0 is queued if it is neither visited nor pending, and otherwise
    the step returns [answer]. *)
Lemma empty_next_url_selects_first (s : shared) (d : dict) (url0 : string) :
  all_discovered_urls s !! 0 = Some url0 ->
  dict_get "action" d = Some (PStr "explore") ->
  (dict_get "next_url" d = None
   \/ exists raw, dict_get "next_url" d = Some (PStr raw) /\ Py.strip raw = EmptyString) ->
  (forall url, substring EmptyString url)
  /\ AgentDecision.find_url_index EmptyString (all_discovered_urls s) = Some 0
  /\ (0 ∉ visited_urls s -> 0 ∉ urls_to_process s ->
      AgentDecision.post s d
      = inr ("explore", set_urls_to_process (urls_to_process s ++ [0]) s))
  /\ (0 ∈ visited_urls s \/ 0 ∈ urls_to_process s ->
      AgentDecision.post s d = inr ("answer", s)).
Proof.
  intros Hseed Ha Hn.
  assert (Hnext : AgentDecision.next_url_of d
                  = inr (AgentDecision.StrippedStr EmptyString)).
  { unfold AgentDecision.next_url_of.
    destruct Hn as [-> | (raw & -> & Hraw)]; simpl; [done | by rewrite Hraw]. }
  assert (Hfind : AgentDecision.find_url_index EmptyString (all_discovered_urls s) = Some 0).
  { apply find_url_index_Some. exists url0. split; [done |]. split.
    - unfold AgentDecision.fuzzy_match. by rewrite contains_empty.
    - intros j url' _ Hlt. lia. }
  split; [intros url; by apply contains_spec, contains_empty |].
  split; [done |].
  rewrite (post_explore s d EmptyString Ha Hnext), Hfind. split.
  - intros Hv Hp.
    by rewrite (bool_decide_eq_false_2 _ Hv), (bool_decide_eq_false_2 _ Hp).
  - intros [Hv | Hp].
    + by rewrite (bool_decide_eq_true_2 _ Hv).
    + rewrite (bool_decide_eq_true_2 _ Hp). by rewrite andb_false_r.
Qed.

(** Where the seed is neither visited nor pending, the decision
    [explore] without a [next_url] queues it. *)
Lemma explore_empty_queues_seed :
  AgentDecision.post unqueued_store explore_empty
  = inr ("explore", set_urls_to_process [0] unqueued_store).
Proof.
  destruct (empty_next_url_selects_first unqueued_store explore_empty "https://example.com")
    as (_ & _ & Hq & _); [done | done | by left |].
  apply Hq; simpl; [apply not_elem_of_empty | apply not_elem_of_nil].
Qed.

(** In a run the seed is never in that position: once queued at the
    start, index 0 is pending until it is fetched and visited from then
    on. *)
Lemma reachable_seed_seen `{Yaml} q b s :
  reachable q b s -> 0 ∈ visited_urls s \/ 0 ∈ urls_to_process s.
Proof.
  induction 1 as [| s result _ IH | s response action s' _ IH Hstep].
  - right. simpl. apply list_elem_of_singleton. done.
  - destruct (prep_cases s) as [Hidle | (i & rest & u & Hq & Hu)].
    + by rewrite crawl_step_idle.
    + assert (Hc : 0 ∈ visited_urls (crawled s i rest)
                   \/ 0 ∈ urls_to_process (crawled s i rest)).
      { simpl. destruct IH as [Hv | Hp].
        - left. apply elem_of_union. by right.
        - rewrite Hq in Hp. apply elem_of_cons in Hp as [<- | Hp].
          + left. apply elem_of_union. left. by apply elem_of_singleton.
          + by right. }
      destruct (fetch_failed result) eqn:Hf.
      * by rewrite (crawl_step_failed s i rest u).
      * rewrite (crawl_step_succeeded s i rest u) by done. simpl.
        destruct (extract_relevant_content _ _) as [content|]; [| done].
        by destruct (Py.truthy content).
  - apply post_cases in Hstep as [[_ ->] | (u & i & _ & _ & _ & _ & _ & ->)]; [done |].
    simpl. destruct IH as [Hv | Hp]; [by left |].
    right. apply elem_of_app. by left.
Qed.

(** So in a run an [explore] decision whose [next_url] is missing, or is
    a text that is empty once trimmed, always ends in [answer]. *)
Lemma empty_next_url_answers `{Yaml} q b s d :
  reachable q b s ->
  dict_get "action" d = Some (PStr "explore") ->
  (dict_get "next_url" d = None
   \/ exists raw, dict_get "next_url" d = Some (PStr raw) /\ Py.strip raw = EmptyString) ->
  AgentDecision.post s d = inr ("answer", s).
Proof.
  intros Hr Ha Hn.
  destruct (empty_next_url_selects_first s d b (reachable_seed q b s Hr) Ha Hn)
    as (_ & _ & _ & Hbusy).
  apply Hbusy, (reachable_seed_seen q b s Hr).
Qed.

(** ** The decision step: parsing the response *)

Lemma dict_get_cons key k x (d : dict) :
  dict_get key ((k, x) :: d) = if is_str key k then Some x else dict_get key d.
Proof. unfold dict_get. simpl. by destruct (is_str key k). Qed.

Lemma is_str_true key k : is_str key k = true -> k = PStr key.
Proof.
  destruct k as [| | | | s' | | | | | |]; simpl; try discriminate.
  intros E. apply String.eqb_eq in E. by subst.
Qed.

Lemma dict_get_set_eq key v (d : dict) : dict_get key (dict_set key v d) = Some v.
Proof.
  induction d as [|[k x] d IH]; simpl.
  - rewrite dict_get_cons. simpl. by rewrite String.eqb_refl.
  - destruct (is_str key k) eqn:E; rewrite dict_get_cons, E; [done | apply IH].
Qed.

Lemma dict_get_set_ne key key' v (d : dict) :
  key <> key' -> dict_get key' (dict_set key v d) = dict_get key' d.
Proof.
  intros Hne. induction d as [|[k x] d IH]; simpl.
  - rewrite dict_get_cons. simpl.
    destruct (String.eqb key' key) eqn:E; [| done].
    apply String.eqb_eq in E. congruence.
  - destruct (is_str key k) eqn:E; rewrite !dict_get_cons.
    + apply is_str_true in E. subst k. simpl.
      destruct (String.eqb key' key) eqn:E'; [| done].
      apply String.eqb_eq in E'. congruence.
    + destruct (is_str key' k); [done | apply IH].
Qed.

Lemma validate_mapping `{Yaml} (d : dict) :
  let r := AgentDecision.validate (PDict d) in
  (exists v, dict_get "action" r = Some v /\ AgentDecision.valid_action v = true)
  /\ dict_get "reasoning" r = dict_get "reasoning" d
  /\ dict_get "next_url" r = dict_get "next_url" d.
Proof.
  simpl. destruct (dict_get "action" d) as [v|] eqn:Ha.
  - destruct (AgentDecision.valid_action v) eqn:Hv.
    + split; [eauto | done].
    + rewrite dict_get_set_eq, !dict_get_set_ne by discriminate.
      split; [by exists (PStr "answer") | done].
  - rewrite dict_get_set_eq, !dict_get_set_ne by discriminate.
    split; [by exists (PStr "answer") | done].
Qed.

Lemma validate_invalid `{Yaml} (d : dict) :
  match dict_get "action" d with
  | Some v => AgentDecision.valid_action v = false
  | None => True
  end ->
  AgentDecision.validate (PDict d) = dict_set "action" (PStr "answer") d.
Proof.
  simpl. destruct (dict_get "action" d) as [v|]; [| done]. by intros ->.
Qed.

Lemma validate_not_mapping `{Yaml} (v : pyval) :
  match v with PDict _ => False | _ => True end ->
  AgentDecision.validate v = AgentDecision.parse_error (type_error_str v).
Proof. by destruct v. Qed.

(** The decision a failing response is turned into. *)
Lemma parse_decision_failure `{Yaml} (response : string) :
  block_absent response \/ block_unparseable response \/ action_invalid response ->
  let d := AgentDecision.parse_decision response in
  dict_get "action" d = Some (PStr "answer")
  /\ (block_absent response -> d = AgentDecision.fallback)
  /\ (block_unparseable response -> exists msg, d = AgentDecision.parse_error msg)
  /\ (forall text loaded,
        AgentDecision.yaml_block response = Some text ->
        safe_load text = YValue (PDict loaded) ->
        dict_get "reasoning" d = dict_get "reasoning" loaded).
Proof.
  intros Hfail d. subst d. unfold AgentDecision.parse_decision.
  unfold block_absent, block_unparseable, action_invalid in *.
  destruct (AgentDecision.yaml_block response) as [text|] eqn:Hb.
  - destruct (safe_load text) as [v | msg] eqn:Hload.
    + assert (Hv : (exists loaded, v = PDict loaded /\
                      match dict_get "action" loaded with
                      | Some a => AgentDecision.valid_action a = false
                      | None => True
                      end)
                   \/ match v with PDict _ => False | _ => True end).
      { destruct Hfail as [Habs | [(text' & [= <-] & Hun) | (text' & loaded & [= <-] & Hl & Ha)]].
        - discriminate.
        - right. by rewrite Hload in Hun.
        - left. exists loaded. rewrite Hload in Hl. by injection Hl as ->. }
      destruct Hv as [(loaded & -> & Ha) | Hnm].
      * rewrite (validate_invalid loaded Ha).
        split; [apply dict_get_set_eq |]. split; [discriminate |].
        split.
        { intros (text' & [= <-] & Hun). by rewrite Hload in Hun. }
        intros text' loaded' [= <-] Hl. rewrite Hload in Hl. injection Hl as <-.
        by rewrite dict_get_set_ne.
      * rewrite (validate_not_mapping v Hnm).
        split; [done |]. split; [discriminate |]. split; [eauto |].
        intros text' loaded' [= <-] Hl. rewrite Hload in Hl. injection Hl as ->. done.
    + split; [done |]. split; [discriminate |]. split; [eauto |].
      intros text' loaded' [= <-] Hl. rewrite Hload in Hl. discriminate.
  - split; [done |]. split; [done |]. split.
    + intros (text' & Hb' & _). discriminate.
    + intros text' loaded' Hb'. discriminate.
Qed.





(** ** The decision step: the model is always consulted *)

Lemma join_contains sub sep (l : list string) x :
  x ∈ l -> Py.contains sub x = true -> Py.contains sub (Py.join sep l) = true.
Proof.
  intros Hx Hc. induction l as [|y l IH]; [by apply elem_of_nil in Hx |].
  apply elem_of_cons in Hx as [-> | Hx].
  - destruct l; simpl; [done | by apply contains_app_l].
  - specialize (IH Hx). destruct l as [|z l]; [by apply elem_of_nil in Hx |].
    change (Py.join sep (y :: z :: l)) with (y +:+ sep +:+ Py.join sep (z :: l)).
    by do 2 apply contains_app_r.
Qed.

(** A response that is [None] is answered like a block that does not
    load: with the error decision, whose action is [answer]. *)
Lemma post_parse_error s msg :
  AgentDecision.post s (AgentDecision.parse_error msg) = inr ("answer", s).
Proof. by apply post_answer. Qed.

Lemma interp_agent_run `{Yaml} (w : world) (s : shared) (log : list event) :
  interp w (AgentDecision.run s) log
  = match call_llm w (length log) (decision_prompt s) with
    | inr (Some response) =>
        (match decision_step s response with
         | inr r => Returned r
         | inl e => Raised e
         end, log ++ [EvLlm (decision_prompt s)])
    | inr None => (Returned ("answer", s), log ++ [EvLlm (decision_prompt s)])
    | inl e => (Raised e, log ++ [EvLlm (decision_prompt s)])
    end.
Proof.
  unfold AgentDecision.run, decision_step, decision_prompt. simpl.
  destruct (call_llm w (length log) _) as [e | [response |]]; [done | | done].
  simpl. by destruct (AgentDecision.post s _) as [e | r].
Qed.

(** C10: a response whose block asks to explore and leaves the field
    [next_url:] empty loads with [next_url] [None]. In every store the
    decision step then raises an [AttributeError], at [strip] and before
    any URL is compared: index 0 is not selected, the node returns
    neither [answer] nor [explore], and with a model that gives this
    response the error leaves the node, whatever the pages are. *)
Theorem C10_empty_next_url_field_raises (s : shared) (result : scrape_result)
    (log : list event) :
  AgentDecision.yaml_block null_url_response = Some null_url_block
  /\ safe_load (Yaml := null_url_yaml) null_url_block = YValue (PDict explore_null)
  /\ dict_get "next_url" explore_null = Some PNone
  /\ decision_step (H := null_url_yaml) s null_url_response = inl AttributeError
  /\ interp (world_of result null_url_response)
            (AgentDecision.run (H := null_url_yaml) s) log
     = (Raised AttributeError, log ++ [EvLlm (decision_prompt s)]).
Proof.
  assert (Hstep : decision_step (H := null_url_yaml) s null_url_response
                  = inl AttributeError).
  { unfold decision_step.
    assert (AgentDecision.parse_decision (H := null_url_yaml) null_url_response
            = explore_null) as -> by (by vm_compute).
    by apply post_explore_raises. }
  split; [by vm_compute |]. split; [by vm_compute |]. split; [done |].
  split; [done |].
  rewrite interp_agent_run. cbn [call_llm world_of]. by rewrite Hstep.
Qed.

(** C1, as the code has it: the fixed decision (action [answer], reason
    "No data to process") is returned without a model call only for an
    empty result of [prep]. [prep] never returns one: in every store,
    also with no page content and no candidate link, the decision step
    calls the model exactly once; the prompt then says "No information
    collected yet." and "No more URLs available.". *)
Theorem C1_decision_consults_model `{Yaml} (w : world) (s : shared) :
  AgentDecision.exec None = Ret AgentDecision.no_data
  /\ dict_get "action" AgentDecision.no_data = Some (PStr "answer")
  /\ dict_get "reason" AgentDecision.no_data = Some (PStr "No data to process")
  /\ exists p,
       AgentDecision.prep s = Some p
       /\ AgentDecision.exec (AgentDecision.prep s)
          = CallLlm (AgentDecision.prompt p)
                    (fun response => Ret (AgentDecision.parse_reply response))
       /\ snd (interp w (AgentDecision.run s) []) = [EvLlm (AgentDecision.prompt p)]
       /\ (url_content s = [] ->
           Py.contains "No information collected yet." (AgentDecision.prompt p) = true)
       /\ (AgentDecision.available_links p = [] ->
           Py.contains "No more URLs available." (AgentDecision.prompt p) = true).
Proof.
  split; [done |]. split; [done |]. split; [done |].
  destruct (AgentDecision.prep s) as [p|] eqn:Hp; [| discriminate].
  exists p. split; [done |]. split; [done |]. split.
  { rewrite interp_agent_run. unfold decision_prompt. rewrite Hp. simpl.
    by destruct (call_llm w 0 _) as [e | [response |]]. }
  unfold AgentDecision.prep in Hp. injection Hp as <-. split.
  - intros Hc. unfold AgentDecision.prompt.
    apply (join_contains _ _ _ "No information collected yet."); [| done].
    unfold AgentDecision.info_summary. simpl. rewrite Hc. simpl.
    repeat (first [apply elem_of_cons; left; reflexivity | apply elem_of_cons; right]).
  - intros Ha. unfold AgentDecision.prompt.
    apply (join_contains _ _ _ "No more URLs available."); [| done].
    unfold AgentDecision.available_urls. rewrite Ha. simpl.
    repeat (first [apply elem_of_cons; left; reflexivity | apply elem_of_cons; right]).
Qed.

(** C1 as stated fails: on the initial store, which has no page
    content and no candidate link, the decision step does not return
    without the model; it asks it. *)
Lemma C1_empty_store_calls_model :
  url_content example_store = []
  /\ (exists p, AgentDecision.prep example_store = Some p
                /\ AgentDecision.available_links p = [])
  /\ ~ (exists d, AgentDecision.exec (H := no_yaml) (AgentDecision.prep example_store)
                  = Ret d).
Proof.
  split; [reflexivity |]. split; [eexists; split; reflexivity |].
  intros [d Hd]. discriminate Hd.
Qed.

(** ** The run *)

(** The answer step when the model does not raise: the final answer is
    what the model returned, or the fixed text for a run without page
    content; it is [None] only if the model returned [None]. *)
Lemma interp_draft_run_reply (w : world) (s : shared) (log : list event) :
  (forall n prompt, exists reply, call_llm w n prompt = inr reply) ->
  exists answer log',
    interp w (DraftAnswer.run s) log = (Returned (set_final_answer answer s), log')
    /\ List.filter is_scrape log' = List.filter is_scrape log
    /\ (answer = None ->
        url_content s <> [] /\ call_llm w (length log) (answer_prompt s) = inr None).
Proof.
  intros Hllm. unfold DraftAnswer.run. simpl.
  destruct (url_content s) as [|entry entries] eqn:Hc; simpl.
  - eexists _, log. split; [done |]. split; [done |]. discriminate.
  - destruct (Hllm (length log) (answer_prompt s)) as [reply Hresp].
    pose proof Hresp as Hresp'.
    unfold answer_prompt in Hresp. simpl in Hresp. rewrite Hc in Hresp. simpl in Hresp.
    rewrite Hresp. simpl.
    exists reply, (log ++ [EvLlm (answer_prompt s)]). split.
    { unfold answer_prompt. simpl. by rewrite Hc. }
    split; [rewrite List.filter_app; simpl; by rewrite app_nil_r |].
    intros ->. done.
Qed.

Lemma interp_draft_run (w : world) (s : shared) (log : list event) :
  (forall n prompt, exists response, call_llm w n prompt = inr (Some response)) ->
  exists answer log',
    interp w (DraftAnswer.run s) log = (Returned (set_final_answer (Some answer) s), log')
    /\ List.filter is_scrape log' = List.filter is_scrape log.
Proof.
  intros Hllm.
  destruct (interp_draft_run_reply w s log) as (answer & log' & Hrun & Hlog & Hnone).
  { intros n prompt. destruct (Hllm n prompt) as [response Hresp]. eauto. }
  destruct answer as [answer |].
  - by exists answer, log'.
  - destruct Hnone as [_ Hnone]; [done |].
    destruct (Hllm (length log) (answer_prompt s)) as [response Hresp]. congruence.
Qed.

Lemma interp_orch_step `{Yaml} (w : world) (f : flow) (fuel : nat) (curr : node)
    (s : shared) (log : list event) action s' log' :
  interp w (node_run curr s) log = (Returned (action, s'), log') ->
  interp w (orch f (S fuel) curr s) log
  = match successors f curr action with
    | Some next =>
        match interp w (orch f fuel next s') log' with
        | (Returned rest, log'') =>
            (Returned ((fun tr => ((curr, action) :: fst tr, snd tr)) <$> rest), log'')
        | (Raised e, log'') => (Raised e, log'')
        end
    | None => (Returned (Some ([(curr, action)], s')), log')
    end.
Proof.
  intros Hrun. simpl orch. rewrite interp_bind, Hrun.
  destruct (successors f curr action) as [next|]; [| done].
  rewrite interp_bind. by destruct (interp w (orch f fuel next s') log') as [[rest | e] log''].
Qed.

Lemma unparseable_step `{Yaml} (s : shared) (response : string) :
  unparseable response -> decision_step s response = inr ("answer", s).
Proof.
  intros Hun. apply post_answer.
  apply (parse_decision_failure response). destruct Hun; auto.
Qed.

(** The first crawl step of a run: the seed is fetched, whatever comes
    back it is visited and the queue is empty. *)
Lemma first_crawl_step q b result :
  exists s1, crawl_step (initialize_shared_store q b) result = ("agent_decide", s1)
             /\ visited_urls s1 = {[0]} /\ urls_to_process s1 = [].
Proof.
  set (s0 := initialize_shared_store q b).
  assert (Hq : urls_to_process s0 = [0]) by done.
  assert (Hu : all_discovered_urls s0 !! 0 = Some b) by done.
  assert (Hv : ({[0]} ∪ visited_urls s0 : gset nat) = {[0]}) by apply union_empty_r_L.
  destruct (fetch_failed result) eqn:Hf.
  - rewrite (crawl_step_failed s0 0 [] b result Hq Hu Hf). by eexists.
  - rewrite (crawl_step_succeeded s0 0 [] b result Hq Hu Hf).
    destruct (extract_relevant_content _ _) as [content|]; [| by eexists].
    destruct (Py.truthy content); by eexists.
Qed.

(** C7: when every response of the model is unparseable (no block, or
    a block that does not load to a mapping), the run, given fuel for
    three nodes or more, ends after the crawl step, the decision step
    with [answer] and the answer step: the seed is the only URL fetched
    and index 0 the only index visited. *)
Theorem C7_unparseable_model_one_cycle `{Yaml} (w : world) (q b : string) (fuel : nat) :
  (forall n prompt, exists response,
      call_llm w n prompt = inr (Some response) /\ unparseable response) ->
  3 <= fuel ->
  exists s log,
    interp w (run_chatbot fuel q b) [] = (Returned (Some (the_one_cycle, s)), log)
    /\ List.filter is_scrape log = [EvScrape b]
    /\ visited_urls s = {[0]}
    /\ urls_to_process s = []
    /\ is_Some (final_answer s).
Proof.
  intros Hllm Hfuel.
  destruct fuel as [|[|[|fuel]]]; try lia. clear Hfuel.
  unfold run_chatbot. simpl start.
  set (s0 := initialize_shared_store q b).
  (* the crawl step *)
  destruct (first_crawl_step q b (scrape_website w 0 b)) as (s1 & Hcrawl & Hv & Hp).
  fold s0 in Hcrawl.
  assert (H1 : interp w (node_run crawl_node s0) []
               = (Returned ("agent_decide", s1), [EvScrape b])).
  { simpl node_run. rewrite interp_crawl_run. simpl. by rewrite Hcrawl. }
  rewrite (interp_orch_step w _ _ _ _ _ _ _ _ H1). simpl successors.
  (* the decision step *)
  destruct (Hllm 1 (decision_prompt s1)) as (response & Hresp & Hun).
  assert (H2 : interp w (node_run agent_node s1) [EvScrape b]
               = (Returned ("answer", s1), [EvScrape b; EvLlm (decision_prompt s1)])).
  { simpl node_run. rewrite interp_agent_run. simpl length. rewrite Hresp.
    by rewrite (unparseable_step s1 response Hun). }
  rewrite (interp_orch_step w _ _ _ _ _ _ _ _ H2). simpl successors.
  (* the answer step *)
  destruct (interp_draft_run w s1 [EvScrape b; EvLlm (decision_prompt s1)])
    as (answer & log' & Hdraft & Hlog).
  { intros n prompt. destruct (Hllm n prompt) as (r & Hr & _). eauto. }
  assert (H3 : interp w (node_run draft_answer_node s1)
                 [EvScrape b; EvLlm (decision_prompt s1)]
               = (Returned ("default", set_final_answer (Some answer) s1), log')).
  { simpl node_run. by rewrite interp_bind, Hdraft. }
  rewrite (interp_orch_step w _ _ _ _ _ _ _ _ H3). simpl successors.
  exists (set_final_answer (Some answer) s1), log'.
  split; [done |]. split; [done |]. split; [done |]. split; [done |].
  simpl. eauto.
Qed.

Lemma C7_unparseable_model_one_cycle_witness :
  exists s log,
    interp (world_of refund_page "I cannot decide.")
           (run_chatbot (H := no_yaml) 5 "How do I get a refund?" "https://example.com") []
    = (Returned (Some (the_one_cycle, s)), log)
    /\ List.filter is_scrape log = [EvScrape "https://example.com"]
    /\ visited_urls s = {[0]}
    /\ urls_to_process s = []
    /\ is_Some (final_answer s).
Proof.
  apply (@C7_unparseable_model_one_cycle no_yaml (world_of refund_page "I cannot decide.")
           "How do I get a refund?" "https://example.com" 5).
  - intros n prompt. exists "I cannot decide.". split; [reflexivity |].
    left. vm_compute. reflexivity.
  - lia.
Defined.

(** * Further properties *)

(** ** Keywords of a question *)

Lemma lower_char_not_upper c : Py.isupper (Py.lower_char c) = false.
Proof. destruct c as [[] [] [] [] [] [] [] []]; reflexivity. Qed.

Lemma lower_char_idemp c : Py.lower_char (Py.lower_char c) = Py.lower_char c.
Proof. destruct c as [[] [] [] [] [] [] [] []]; reflexivity. Qed.

Lemma lower_idemp s : Py.lower (Py.lower s) = Py.lower s.
Proof. induction s as [|c s IH]; simpl; [done | by rewrite lower_char_idemp, IH]. Qed.

Lemma all_chars_lower s : all_chars (fun c => negb (Py.isupper c)) (Py.lower s) = true.
Proof. induction s as [|c s IH]; simpl; [done | by rewrite lower_char_not_upper, IH]. Qed.

Lemma all_chars_filter_chars keep s : all_chars keep (Py.filter_chars keep s) = true.
Proof.
  induction s as [|c s IH]; simpl; [done |].
  destruct (keep c) eqn:E; simpl; [by rewrite E, IH | done].
Qed.

Lemma all_chars_filter_chars_keeps p keep s :
  all_chars p s = true -> all_chars p (Py.filter_chars keep s) = true.
Proof.
  induction s as [|c s IH]; simpl; [done |].
  intros [Hc Hs]%andb_true_iff. destruct (keep c); simpl; [by rewrite Hc, IH | by apply IH].
Qed.

Lemma all_chars_and p q s :
  all_chars p s = true -> all_chars q s = true ->
  all_chars (fun c => p c && q c) s = true.
Proof.
  induction s as [|c s IH]; simpl; [done |].
  intros [Hp Hs]%andb_true_iff [Hq Hs']%andb_true_iff. by rewrite Hp, Hq, IH.
Qed.

Lemma all_chars_impl (p q : ascii -> bool) s :
  (forall c, p c = true -> q c = true) ->
  all_chars p s = true -> all_chars q s = true.
Proof.
  intros Hpq. induction s as [|c s IH]; simpl; [done |].
  intros [Hp Hs]%andb_true_iff. by rewrite (Hpq c Hp), IH.
Qed.

(** The pieces of a split hold no separator, and keep what holds of
    every character of the text. *)
Lemma split_on_pieces is_sep p s w :
  all_chars p s = true -> w ∈ Py.split_on is_sep s ->
  all_chars (fun c => p c && negb (is_sep c)) w = true.
Proof.
  revert w. induction s as [|c s IH]; simpl; intros w Hs Hw.
  - apply list_elem_of_singleton in Hw as ->. done.
  - apply andb_true_iff in Hs as [Hc Hs].
    destruct (is_sep c) eqn:Hsep.
    + apply elem_of_cons in Hw as [-> | Hw]; [done | by apply IH].
    + destruct (Py.split_on is_sep s) as [|w0 ws] eqn:Hsplit.
      * apply list_elem_of_singleton in Hw as ->. simpl. by rewrite Hc, Hsep.
      * apply elem_of_cons in Hw as [-> | Hw].
        -- simpl. rewrite Hc, Hsep. simpl. apply IH; [done |].
           apply elem_of_cons. by left.
        -- apply IH; [done |]. apply elem_of_cons. by right.
Qed.

Lemma all_chars_true s : all_chars (fun _ => true) s = true.
Proof. induction s as [|c s IH]; simpl; [done | exact IH]. Qed.

(** X1: whatever the question, every keyword has more than two
    characters and is no stop word. *)
Theorem X1_keywords_long_and_no_stop_word (question w : string) :
  w ∈ extract_question_keywords question ->
  2 < String.length w /\ w ∉ stop_words.
Proof.
  unfold extract_question_keywords. intros [Hp _]%list_elem_of_filter.
  apply Is_true_true, andb_true_iff in Hp as [Hstop Hlen].
  split.
  - by apply Nat.ltb_lt.
  - apply in_list_false. by apply negb_true_iff.
Qed.

Lemma X1_keywords_long_and_no_stop_word_witness :
  "refund" ∈ extract_question_keywords "How do I get a refund?"
  /\ 2 < String.length "refund" /\ "refund" ∉ stop_words.
Proof.
  assert (Hin : "refund" ∈ extract_question_keywords "How do I get a refund?").
  { rewrite extract_question_keywords_refund. apply elem_of_cons. right.
    apply elem_of_cons. by left. }
  split; [exact Hin |].
  exact (X1_keywords_long_and_no_stop_word "How do I get a refund?" "refund" Hin).
Defined.

(** X2: whatever the question, a keyword is made of word characters
    only (no blank, no punctuation) and has no upper-case letter. *)
Theorem X2_keywords_are_clean_words (question w : string) :
  w ∈ extract_question_keywords question ->
  all_chars (fun c => Py.isword c && negb (Py.isupper c) && negb (Py.isspace c)) w = true.
Proof.
  unfold extract_question_keywords, Py.split_ws.
  intros [_ [_ Hw]%list_elem_of_filter]%list_elem_of_filter.
  set (keep := fun c => Py.isword c || Py.isspace c) in *.
  assert (Hclean : all_chars (fun c => keep c && negb (Py.isupper c))
                     (Py.filter_chars keep (Py.lower question)) = true).
  { apply all_chars_and; [apply all_chars_filter_chars |].
    apply all_chars_filter_chars_keeps, all_chars_lower. }
  pose proof (split_on_pieces _ _ _ _ Hclean Hw) as Hpiece.
  revert Hpiece. apply all_chars_impl. intros c. unfold keep.
  destruct (Py.isword c), (Py.isspace c), (Py.isupper c); done.
Qed.

Lemma X2_keywords_are_clean_words_witness :
  "refund" ∈ extract_question_keywords "How do I get a REFUND?"
  /\ all_chars (fun c => Py.isword c && negb (Py.isupper c) && negb (Py.isspace c))
               "refund" = true.
Proof.
  assert (Hin : "refund" ∈ extract_question_keywords "How do I get a REFUND?").
  { replace (extract_question_keywords "How do I get a REFUND?") with ["get"; "refund"]
      by (vm_compute; reflexivity).
    apply elem_of_cons. right. apply elem_of_cons. by left. }
  split; [exact Hin |].
  exact (X2_keywords_are_clean_words "How do I get a REFUND?" "refund" Hin).
Defined.

(** The keywords do not depend on the case of the letters of the
    question. *)
Lemma keywords_ignore_case (question : string) :
  extract_question_keywords (Py.lower question) = extract_question_keywords question.
Proof. unfold extract_question_keywords. by rewrite lower_idemp. Qed.

(** ** Keywords of a URL and the score of a link *)

Lemma all_chars_take p n s : all_chars p s = true -> all_chars p (Py.take n s) = true.
Proof.
  revert n. induction s as [|c s IH]; intros [|n]; simpl; try done.
  intros [Hc Hs]%andb_true_iff. by rewrite Hc, IH.
Qed.

Lemma all_chars_app p a b :
  all_chars p (a +:+ b) = all_chars p a && all_chars p b.
Proof.
  induction a as [|c a IH]; [done |].
  rewrite append_cons. simpl. by rewrite IH, andb_assoc.
Qed.

Lemma strip_web_extension_no_upper path :
  all_chars (fun c => negb (Py.isupper c)) path = true ->
  all_chars (fun c => negb (Py.isupper c)) (strip_web_extension path) = true.
Proof.
  intros Hp. unfold strip_web_extension.
  destruct (List.find _ web_extensions) as [e|]; [by apply all_chars_take |].
  destruct (List.find _ web_extensions) as [e|]; [| done].
  rewrite all_chars_app, all_chars_take by done. done.
Qed.

(** X3: whatever [urlparse] reads off the URL, a keyword of a URL has
    more than two characters, is none of the generic path words, holds
    none of the separators [/], [_], [-], [.] and no upper-case letter. *)
Theorem X3_url_keywords_are_path_words (urlparse_path : string -> string)
    (url w : string) :
  w ∈ get_url_keywords urlparse_path url ->
  2 < String.length w
  /\ (w ∉ common_words)
  /\ all_chars (fun c => negb (Py.isupper c) && negb (url_separator c)) w = true.
Proof.
  unfold get_url_keywords. intros [Hp Hw]%list_elem_of_filter.
  apply Is_true_true in Hp.
  apply andb_true_iff in Hp as [Hp Hlen]. apply andb_true_iff in Hp as [_ Hcommon].
  split; [by apply Nat.ltb_lt |].
  split; [apply in_list_false; by apply negb_true_iff |].
  apply (split_on_pieces url_separator _ _ _ (strip_web_extension_no_upper _ (all_chars_lower _)) Hw).
Qed.

Lemma X3_url_keywords_are_path_words_witness :
  "returns" ∈ get_url_keywords hier_path "https://example.com/Support/Returns.html"
  /\ 2 < String.length "returns"
  /\ ("returns" ∉ common_words)
  /\ all_chars (fun c => negb (Py.isupper c) && negb (url_separator c)) "returns" = true.
Proof.
  assert (Hin : "returns"
                ∈ get_url_keywords hier_path "https://example.com/Support/Returns.html").
  { replace (get_url_keywords hier_path "https://example.com/Support/Returns.html")
      with ["support"; "returns"] by (vm_compute; reflexivity).
    apply elem_of_cons. right. apply elem_of_cons. by left. }
  split; [exact Hin |].
  exact (X3_url_keywords_are_path_words hier_path _ _ Hin).
Defined.

Lemma length_List_filter {A} (f : A -> bool) (l : list A) :
  length (List.filter f l) <= length l.
Proof. induction l as [|x l IH]; simpl; [lia |]. destruct (f x); simpl; lia. Qed.

(** X4: the score of a link is at most 5 per question keyword (3 for
    the URL path, 2 for the anchor text) plus 13, one per helpful
    indicator. *)
Theorem X4_score_link_bound (urlparse_path : string -> string) (l : link)
    (question_keywords : list string) :
  score_link urlparse_path l question_keywords <= 5 * length question_keywords + 13.
Proof.
  rewrite score_link_sum.
  pose proof (length_List_filter
    (fun keyword =>
       existsb (fun uk => Py.contains (Py.lower keyword) uk)
               (get_url_keywords urlparse_path (Py.lower (link_url l))))
    question_keywords) as H3.
  pose proof (length_List_filter
    (fun keyword => Py.contains (Py.lower keyword) (Py.lower (link_text l)))
    question_keywords) as H2.
  pose proof (length_List_filter
    (fun indicator => Py.contains indicator (Py.lower (link_url l))
                      || Py.contains indicator (Py.lower (link_text l)))
    helpful_indicators) as H1.
  change (length helpful_indicators) with 13 in H1. lia.
Qed.

(** ** The ranking of links *)

Lemma scored_urls_fold urlparse_path question_keywords links acc :
  foldl (fun acc l =>
           let score := score_link urlparse_path l question_keywords in
           if 0 <? score then acc ++ [Scored (link_url l) (link_text l) score] else acc)
        acc links
  = acc ++ map (to_scored urlparse_path question_keywords)
               (List.filter (fun l => 0 <? score_link urlparse_path l question_keywords)
                            links).
Proof.
  revert acc. induction links as [|l links IH]; intros acc; simpl.
  - by rewrite app_nil_r.
  - rewrite IH. destruct (0 <? score_link urlparse_path l question_keywords); [| done].
    simpl. by rewrite <- app_assoc.
Qed.

Lemma find_relevant_urls_sort urlparse_path links question_keywords :
  find_relevant_urls urlparse_path links question_keywords
  = sort_by_score
      (map (to_scored urlparse_path question_keywords)
           (List.filter (fun l => 0 <? score_link urlparse_path l question_keywords)
                        links)).
Proof. unfold find_relevant_urls. by rewrite scored_urls_fold. Qed.

Lemma insert_by_score_perm x l : insert_by_score x l ≡ₚ x :: l.
Proof.
  induction l as [|y l IH]; simpl; [done |].
  destruct (su_score y <=? su_score x); [done |].
  rewrite IH. apply Permutation_swap.
Qed.

Lemma sort_by_score_perm l : sort_by_score l ≡ₚ l.
Proof.
  induction l as [|x l IH]; simpl; [done |].
  unfold sort_by_score in *. simpl. by rewrite insert_by_score_perm, IH.
Qed.

Lemma insert_by_score_sorted x l :
  StronglySorted score_ge l -> StronglySorted score_ge (insert_by_score x l).
Proof.
  induction 1 as [|y l Hs IH Hall]; simpl.
  - by repeat constructor.
  - destruct (su_score y <=? su_score x) eqn:E.
    + apply Nat.leb_le in E. constructor; [by constructor |].
      constructor; [exact E |].
      rewrite Forall_forall in Hall |- *. intros z Hz. specialize (Hall z Hz).
      unfold score_ge in *. lia.
    + apply Nat.leb_gt in E. constructor; [exact IH |].
      rewrite Forall_forall in Hall |- *. intros z Hz.
      rewrite insert_by_score_perm in Hz. apply elem_of_cons in Hz as [-> | Hz].
      * unfold score_ge. lia.
      * by apply Hall.
Qed.

Lemma sort_by_score_sorted l : StronglySorted score_ge (sort_by_score l).
Proof.
  induction l as [|x l IH]; [constructor |].
  unfold sort_by_score in *. simpl. by apply insert_by_score_sorted.
Qed.

Lemma find_relevant_urls_sorted urlparse_path links question_keywords :
  StronglySorted score_ge (find_relevant_urls urlparse_path links question_keywords).
Proof. rewrite find_relevant_urls_sort. apply sort_by_score_sorted. Qed.

(** X5: the ranking is ordered by score, highest first: no entry has a
    higher score than an entry before it. *)
Theorem X5_find_relevant_urls_sorted (urlparse_path : string -> string)
    (links : list link) (question_keywords : list string) :
  StronglySorted score_ge (find_relevant_urls urlparse_path links question_keywords).
Proof. apply find_relevant_urls_sorted. Qed.

(** X6: the ranking holds the links with a score above 0, each once per
    occurrence and with its own score; a link that scores 0 is left
    out. *)
Theorem X6_find_relevant_urls_content (urlparse_path : string -> string)
    (links : list link) (question_keywords : list string) :
  find_relevant_urls urlparse_path links question_keywords
  ≡ₚ map (to_scored urlparse_path question_keywords)
         (List.filter (fun l => 0 <? score_link urlparse_path l question_keywords) links)
  /\ (forall e, e ∈ find_relevant_urls urlparse_path links question_keywords ->
                0 < su_score e).
Proof.
  rewrite find_relevant_urls_sort. split; [apply sort_by_score_perm |].
  intros e He. rewrite sort_by_score_perm in He.
  apply list_elem_of_fmap in He as (l & -> & Hl).
  apply list_elem_of_In, List.filter_In in Hl as [_ Hl]. simpl. by apply Nat.ltb_lt.
Qed.

Lemma insert_by_score_filter k x l :
  filter (fun e => su_score e = k) (insert_by_score x l)
  = filter (fun e => su_score e = k) (x :: l).
Proof.
  induction l as [|y l IH]; simpl; [done |].
  destruct (su_score y <=? su_score x) eqn:E; [done |].
  apply Nat.leb_gt in E.
  rewrite (filter_cons _ y), IH, !(filter_cons _ x), (filter_cons _ y).
  repeat case_decide; try done. lia.
Qed.

Lemma sort_by_score_filter k l :
  filter (fun e => su_score e = k) (sort_by_score l)
  = filter (fun e => su_score e = k) l.
Proof.
  induction l as [|x l IH]; [done |].
  unfold sort_by_score in *. simpl.
  by rewrite insert_by_score_filter, !(filter_cons _ x), IH.
Qed.

(** X7: the ranking is stable: the entries with one and the same score
    stand in the order in which their links were given. *)
Theorem X7_find_relevant_urls_stable (urlparse_path : string -> string)
    (links : list link) (question_keywords : list string) (k : nat) :
  filter (fun e => su_score e = k)
         (find_relevant_urls urlparse_path links question_keywords)
  = filter (fun e => su_score e = k)
           (map (to_scored urlparse_path question_keywords)
                (List.filter
                   (fun l => 0 <? score_link urlparse_path l question_keywords) links)).
Proof. rewrite find_relevant_urls_sort. apply sort_by_score_filter. Qed.

(** ** The navigation strategy *)

Lemma find_relevant_urls_nil urlparse_path links question_keywords :
  find_relevant_urls urlparse_path links question_keywords = []
  <-> forall l, l ∈ links -> score_link urlparse_path l question_keywords = 0.
Proof.
  split.
  - intros Hnil l Hl.
    destruct (score_link urlparse_path l question_keywords) as [|n] eqn:Hs; [done |].
    assert (Hin : to_scored urlparse_path question_keywords l
                  ∈ find_relevant_urls urlparse_path links question_keywords).
    { rewrite find_relevant_urls_sort, sort_by_score_perm.
      apply list_elem_of_fmap. exists l. split; [done |].
      apply list_elem_of_In, List.filter_In. split; [by apply list_elem_of_In |].
      by rewrite Hs. }
    rewrite Hnil in Hin. by apply elem_of_nil in Hin.
  - intros Hall. rewrite find_relevant_urls_sort.
    assert (List.filter (fun l => 0 <? score_link urlparse_path l question_keywords) links
            = []) as ->; [| done].
    induction links as [|l links IH]; [done |]. simpl.
    rewrite (Hall l) by (apply elem_of_cons; by left). simpl.
    apply IH. intros l' Hl'. apply Hall, elem_of_cons. by right.
Qed.

(** X8: the strategy recommends at most three links, none of which
    scores less than a relevant link that is not recommended; it
    recommends nothing exactly when every link scores 0; and it always
    gives one or two lines of reasoning. *)
Theorem X8_strategy_recommends_top_three (urlparse_path : string -> string)
    (current_url : string) (question_keywords : list string) (links : list link) :
  let st := prioritize_navigation_strategy urlparse_path current_url
              question_keywords links in
  length (recommended_urls st) <= 3
  /\ (forall x y, x ∈ recommended_urls st ->
                  y ∈ drop 3 (find_relevant_urls urlparse_path links question_keywords) ->
                  su_score y <= su_score x)
  /\ (recommended_urls st = []
      <-> forall l, l ∈ links -> score_link urlparse_path l question_keywords = 0)
  /\ 1 <= length (reasoning st) <= 2.
Proof.
  simpl. set (rel := find_relevant_urls urlparse_path links question_keywords).
  split; [rewrite length_take; lia |]. split; [| split].
  - intros x y Hx Hy.
    pose proof (find_relevant_urls_sorted urlparse_path links question_keywords) as Hs.
    fold rel in Hs. rewrite <- (take_drop 3 rel) in Hs.
    exact (StronglySorted_app_1_elem_of _ _ _ x y Hs Hx Hy).
  - rewrite <- find_relevant_urls_nil. fold rel. split.
    + intros [Hn | Hn]%take_nil_inv; [discriminate | done].
    + by intros ->.
  - destruct (negb _), (nonempty rel); simpl; lia.
Qed.

(** ** Trimming *)

Lemma append_nil_r (s : string) : s +:+ EmptyString = s.
Proof. induction s as [|c s IH]; [done |]. by rewrite append_cons, IH. Qed.

Lemma rev_app_spec (s t : string) : String.rev_app s t = String.rev s +:+ t.
Proof.
  unfold String.rev. revert t. induction s as [|c s IH]; intros t; simpl; [done |].
  rewrite (IH (String c t)), (IH (String c EmptyString)).
  by rewrite append_assoc, append_cons, append_nil_l.
Qed.

Lemma rev_app_distr (a b : string) :
  String.rev (a +:+ b) = String.rev b +:+ String.rev a.
Proof.
  induction a as [|c a IH].
  - by rewrite append_nil_l, append_nil_r.
  - rewrite append_cons. unfold String.rev in *. simpl.
    rewrite !(rev_app_spec _ (String c EmptyString)). unfold String.rev.
    by rewrite IH, append_assoc.
Qed.

Lemma rev_involutive (s : string) : String.rev (String.rev s) = s.
Proof.
  induction s as [|c s IH]; [done |].
  unfold String.rev at 2. simpl. rewrite rev_app_spec, rev_app_distr, IH. done.
Qed.

Lemma lstrip_split s :
  exists p, s = p +:+ Py.lstrip s /\ all_chars Py.isspace p = true.
Proof.
  induction s as [|c s (p & Hp & Hblank)]; simpl.
  - by exists EmptyString.
  - destruct (Py.isspace c) eqn:Hc.
    + exists (String c p). rewrite append_cons, <- Hp. simpl. by rewrite Hc.
    + by exists EmptyString.
Qed.

Lemma all_chars_rev p s : all_chars p (String.rev s) = all_chars p s.
Proof.
  induction s as [|c s IH]; [done |].
  unfold String.rev. simpl. rewrite rev_app_spec, all_chars_app, IH. simpl.
  by rewrite andb_true_r, andb_comm.
Qed.

Lemma rstrip_split s :
  exists q, s = Py.rstrip s +:+ q /\ all_chars Py.isspace q = true.
Proof.
  unfold Py.rstrip. destruct (lstrip_split (String.rev s)) as (p & Hp & Hblank).
  exists (String.rev p). split; [| by rewrite all_chars_rev].
  rewrite <- rev_app_distr, <- Hp. by rewrite rev_involutive.
Qed.

(** What [strip] cuts off both ends is blank. *)
Lemma strip_split s :
  exists p q, s = p +:+ Py.strip s +:+ q
              /\ all_chars Py.isspace p = true /\ all_chars Py.isspace q = true.
Proof.
  unfold Py.strip. destruct (lstrip_split s) as (p & Hp & Hpb).
  destruct (rstrip_split (Py.lstrip s)) as (q & Hq & Hqb).
  exists p, q. split; [| done]. by rewrite <- Hq.
Qed.

Lemma all_chars_strip p s : all_chars p s = true -> all_chars p (Py.strip s) = true.
Proof.
  destruct (strip_split s) as (a & b & Hs & _). rewrite Hs at 1.
  rewrite !all_chars_app. by intros [_ [H _]%andb_true_iff]%andb_true_iff.
Qed.

Lemma substring_strip s : substring (Py.strip s) s.
Proof. destruct (strip_split s) as (p & q & Hs & _). by exists p, q. Qed.

Lemma length_take_string n s : String.length (Py.take n s) <= n.
Proof.
  revert n. induction s as [|c s IH]; intros [|n]; simpl; try lia.
  specialize (IH n). lia.
Qed.

(** ** The page fetcher *)

Lemma collapse_ws_chars b s :
  all_chars (fun c => negb (Py.isspace c) || Ascii.eqb c " ")
            (WebScraper.collapse_ws_from b s) = true.
Proof.
  revert b. induction s as [|c s IH]; intros b; simpl; [done |].
  destruct (Py.isspace c) eqn:Hc.
  - destruct b; simpl; [apply IH | by rewrite IH].
  - simpl. by rewrite Hc, IH.
Qed.

Lemma collect_links_inv `{UrlLib} (Q : link -> Prop) url anchors links out :
  (forall a absolute_url n,
      a ∈ anchors ->
      urljoin url (a_href a) = inr absolute_url ->
      urlparse_netloc absolute_url = inr n -> urlparse_netloc url = inr n ->
      Py.strip (a_text a) <> EmptyString ->
      Q {| link_url := absolute_url; link_text := Py.strip (a_text a) |}) ->
  WebScraper.collect_links url anchors links = inr out ->
  NoDup (map link_url links) -> Forall Q links ->
  NoDup (map link_url out) /\ Forall Q out.
Proof.
  revert links. induction anchors as [|a anchors IH]; intros links HQ Hout Hnd Hall.
  - simpl in Hout. by injection Hout as <-.
  - simpl in Hout.
    assert (HQ' : forall a' absolute_url n,
               a' ∈ anchors ->
               urljoin url (a_href a') = inr absolute_url ->
               urlparse_netloc absolute_url = inr n -> urlparse_netloc url = inr n ->
               Py.strip (a_text a') <> EmptyString ->
               Q {| link_url := absolute_url; link_text := Py.strip (a_text a') |}).
    { intros a' u n Ha'. apply HQ, elem_of_cons. by right. }
    destruct (urljoin url (a_href a)) as [e | absolute_url] eqn:Hj; [discriminate |].
    destruct (urlparse_netloc absolute_url) as [e | n1] eqn:Hn1; [discriminate |].
    destruct (urlparse_netloc url) as [e | n2] eqn:Hn2; [discriminate |].
    destruct (String.eqb n1 n2) eqn:Heq; [| by apply (IH links)].
    apply String.eqb_eq in Heq. subst n2.
    destruct (Py.truthy (Py.strip (a_text a))) eqn:Ht; simpl in Hout;
      [| by apply (IH links)].
    destruct (Py.in_list absolute_url (map link_url links)) eqn:Hin; simpl in Hout;
      [by apply (IH links) |].
    apply in_list_false in Hin.
    apply (IH _ HQ' Hout).
    + rewrite map_app. simpl. apply NoDup_app. split; [done |].
      split; [| apply NoDup_singleton].
      intros u Hu Hu'. apply list_elem_of_singleton in Hu' as ->. done.
    + apply Forall_app. split; [done |]. apply Forall_singleton.
      apply (HQ a absolute_url n1); try done.
      * apply elem_of_cons. by left.
      * intros Hempty. by rewrite Hempty in Ht.
Qed.

Lemma failure_shape prefix msg :
  Py.truthy prefix = true ->
  fetch_failed (WebScraper.failure prefix msg) = true.
Proof.
  destruct prefix; [done |]. intros _.
  unfold fetch_failed, WebScraper.failure, sr_error, opt_truthy.
  by rewrite append_cons.
Qed.

Lemma scrape_website_cases `{UrlLib} none_strip_error url response :
  (exists prefix msg,
      Py.truthy prefix = true
      /\ WebScraper.scrape_website none_strip_error url response
         = WebScraper.failure prefix msg)
  \/ (exists page title n links,
         response = Parsed page
         /\ match soup_title page with
            | Some title_string => title_string
            | None => Some "No title"
            end = Some title
         /\ urlparse_netloc url = inr n
         /\ WebScraper.collect_links url (soup_anchors page) [] = inr links
         /\ WebScraper.scrape_website none_strip_error url response
            = {| sr_title := Some (Py.strip title);
                 sr_content :=
                   Some (Py.take 5000 (Py.strip (WebScraper.collapse_ws (soup_text page))));
                 sr_links := take 20 links;
                 sr_error := None |}).
Proof.
  destruct response as [msg | msg | page]; simpl.
  - left. by exists "Request failed: ", msg.
  - left. by exists "Parsing failed: ", msg.
  - destruct (match soup_title page with
              | Some title_string => title_string
              | None => Some "No title"
              end) as [title|] eqn:Ht;
      [| left; by exists "Parsing failed: ", none_strip_error].
    destruct (urlparse_netloc url) as [e | n] eqn:Hn;
      [left; by exists "Parsing failed: ", e |].
    destruct (WebScraper.collect_links url (soup_anchors page) []) as [e | links] eqn:Hl;
      [left; by exists "Parsing failed: ", e |].
    right. by exists page, title, n, links.
Qed.

(** X9: whatever the request and the parser give, the result of
    [scrape_website] is either a failure, with an error text that the
    crawl step takes for a failure and with no title, content or links,
    or a success without error, with a title, at most 5000 characters of
    content and at most 20 links. A request exception always gives a
    failure. *)
Theorem X9_scrape_website_result_shape `{UrlLib} (none_strip_error url : string)
    (response : fetched) :
  let r := WebScraper.scrape_website none_strip_error url response in
  ((fetch_failed r = true /\ sr_title r = None /\ sr_content r = None /\ sr_links r = [])
   \/ (fetch_failed r = false /\ sr_error r = None
       /\ (exists title, sr_title r = Some title)
       /\ (exists content, sr_content r = Some content /\ String.length content <= 5000)
       /\ length (sr_links r) <= 20))
  /\ (forall msg, response = RequestFailed msg ->
                  sr_error r = Some ("Request failed: " +:+ msg)).
Proof.
  intros r. split; [| by intros msg ->].
  destruct (scrape_website_cases none_strip_error url response)
    as [(prefix & msg & Hp & Hr) | (page & title & n & links & _ & _ & _ & _ & Hr)];
    subst r; rewrite Hr.
  - left. split; [by apply failure_shape | done].
  - right. unfold fetch_failed. cbn [sr_title sr_content sr_links sr_error opt_truthy].
    split; [done |]. split; [done |]. split; [eauto |]. split.
    + eexists. split; [done |]. apply length_take_string.
    + rewrite length_take. lia.
Qed.

(** X10: the links of a result have pairwise different URLs, each has a
    text that is not empty, and each URL has the network location of the
    page that was fetched. *)
Theorem X10_scraped_links_distinct_same_site `{UrlLib} (none_strip_error url : string)
    (response : fetched) :
  let r := WebScraper.scrape_website none_strip_error url response in
  NoDup (map link_url (sr_links r))
  /\ forall l, l ∈ sr_links r ->
       link_text l <> EmptyString
       /\ exists n, urlparse_netloc (link_url l) = inr n /\ urlparse_netloc url = inr n.
Proof.
  intros r.
  destruct (scrape_website_cases none_strip_error url response)
    as [(prefix & msg & Hp & Hr) | (page & title & n & links & _ & _ & _ & Hl & Hr)];
    subst r; rewrite Hr; cbn [sr_links WebScraper.failure].
  - split; [constructor |]. intros l Hl. by apply elem_of_nil in Hl.
  - destruct (collect_links_inv
                (fun l => link_text l <> EmptyString
                          /\ exists n, urlparse_netloc (link_url l) = inr n
                                       /\ urlparse_netloc url = inr n)
                url (soup_anchors page) [] links) as [Hnd Hall]; try done.
    { intros a u m _ _ Hu Hm Ht. split; [done | by exists m]. }
    { constructor. }
    split.
    + change (NoDup (link_url <$> take 20 links)). rewrite fmap_take.
      exact (sublist_NoDup _ _ Hnd (sublist_take _ 20)).
    + intros l Hin. rewrite Forall_forall in Hall. apply Hall.
      by apply (subseteq_take 20 links).
Qed.

(** X11: in the content of a result every white-space character is a
    single space character: tabs and line ends are gone. *)
Theorem X11_scraped_content_blanks `{UrlLib} (none_strip_error url : string)
    (response : fetched) (content : string) :
  sr_content (WebScraper.scrape_website none_strip_error url response) = Some content ->
  all_chars (fun c => negb (Py.isspace c) || Ascii.eqb c " ") content = true.
Proof.
  destruct (scrape_website_cases none_strip_error url response)
    as [(prefix & msg & Hp & Hr) | (page & title & n & links & _ & _ & _ & _ & Hr)];
    rewrite Hr; cbn [sr_content WebScraper.failure]; [discriminate |].
  intros Hc.
  assert (content
          = Py.take 5000 (Py.strip (WebScraper.collapse_ws (soup_text page)))) as ->
    by congruence.
  apply all_chars_take, all_chars_strip, collapse_ws_chars.
Qed.

Lemma X11_scraped_content_blanks_witness :
  sr_content (WebScraper.scrape_website (H := simple_urls) EmptyString
                "https://example.com/shop" (Parsed shop_page))
  = Some "Welcome. Ask for a refund here. Returns Policy"
  /\ all_chars (fun c => negb (Py.isspace c) || Ascii.eqb c " ")
               "Welcome. Ask for a refund here. Returns Policy" = true.
Proof.
  split; [vm_compute; reflexivity |].
  apply (@X11_scraped_content_blanks simple_urls EmptyString "https://example.com/shop"
           (Parsed shop_page)).
  vm_compute. reflexivity.
Defined.

(** ** The relevant content of a page *)

Lemma substring_refl s : substring s s.
Proof. exists EmptyString, EmptyString. by rewrite append_nil_l, append_nil_r. Qed.

Lemma substring_trans a b c : substring a b -> substring b c -> substring a c.
Proof.
  intros (p & q & ->) (p' & q' & ->). exists (p' +:+ p), (q +:+ q').
  by rewrite !append_assoc.
Qed.

Lemma substring_cons c a s : substring a s -> substring a (String c s).
Proof. intros (p & q & ->). exists (String c p), q. by rewrite append_cons. Qed.

Lemma lower_app a b : Py.lower (a +:+ b) = Py.lower a +:+ Py.lower b.
Proof.
  induction a as [|c a IH]; [done |].
  rewrite append_cons. simpl. by rewrite IH, append_cons.
Qed.

Lemma substring_lower a b : substring a b -> substring (Py.lower a) (Py.lower b).
Proof. intros (p & q & ->). exists (Py.lower p), (Py.lower q). by rewrite !lower_app. Qed.

Lemma split_on_head is_sep s :
  exists w ws r, Py.split_on is_sep s = w :: ws /\ s = w +:+ r.
Proof.
  induction s as [|c s (w & ws & r & Hsplit & Hs)]; simpl.
  - by exists EmptyString, [], EmptyString.
  - destruct (is_sep c).
    + by exists EmptyString, (Py.split_on is_sep s), (String c s).
    + rewrite Hsplit. exists (String c w), ws, r. by rewrite append_cons, <- Hs.
Qed.

Lemma split_on_substring is_sep s w : w ∈ Py.split_on is_sep s -> substring w s.
Proof.
  revert w. induction s as [|c s IH]; simpl; intros w Hw.
  - apply list_elem_of_singleton in Hw as ->. apply substring_refl.
  - destruct (is_sep c).
    + apply elem_of_cons in Hw as [-> | Hw].
      * exists EmptyString, (String c s). by rewrite !append_nil_l.
      * by apply substring_cons, IH.
    + destruct (split_on_head is_sep s) as (w0 & ws & r & Hsplit & Hs).
      rewrite Hsplit in Hw, IH. apply elem_of_cons in Hw as [-> | Hw].
      * exists EmptyString, r. by rewrite append_nil_l, append_cons, <- Hs.
      * apply substring_cons, IH, elem_of_cons. by right.
Qed.

Lemma contains_in_empty sub : Py.contains sub EmptyString = true -> sub = EmptyString.
Proof. by destruct sub. Qed.

Lemma lower_nil_inv s : Py.lower s = EmptyString -> s = EmptyString.
Proof. by destruct s. Qed.

Lemma join_nonempty sep x l : x <> EmptyString -> Py.join sep (x :: l) <> EmptyString.
Proof.
  destruct x as [|c x]; [done |]. intros _.
  destruct l; simpl; [done |]. by rewrite append_cons.
Qed.

Lemma take_nonempty n s : s <> EmptyString -> Py.take (S n) s <> EmptyString.
Proof. by destruct s. Qed.

Lemma nonempty_false {A} (l : list A) : nonempty l = false -> l = [].
Proof. by destruct l. Qed.

Lemma relevant_content_nonempty (text : string) (keywords : list string) :
  text <> EmptyString ->
  (forall k, k ∈ keywords -> k <> EmptyString) ->
  exists r, extract_relevant_content (Some text) keywords = Some r /\ r <> EmptyString.
Proof.
  intros Htext Hkw. unfold extract_relevant_content.
  destruct (negb (Py.truthy text) || negb (nonempty keywords)); [eauto |].
  destruct (List.filter _ _) as [|x rest] eqn:Hf; cbn [nonempty].
  - eexists. split; [reflexivity |]. by apply (take_nonempty 999).
  - eexists. split; [reflexivity |]. apply join_nonempty.
    assert (Hx : In x (x :: rest)) by (by left).
    rewrite <- Hf in Hx. apply List.filter_In in Hx as [_ Hx].
    apply existsb_exists in Hx as (k & Hk & Hc).
    intros ->. apply contains_in_empty, lower_nil_inv in Hc.
    by apply (Hkw k); [apply list_elem_of_In |].
Qed.

(** X12: when the page text is not empty and no keyword is the empty
    text, the relevant content is not empty either. *)
Theorem X12_relevant_content_nonempty (text : string) (keywords : list string) :
  text <> EmptyString ->
  (forall k, k ∈ keywords -> k <> EmptyString) ->
  exists r, extract_relevant_content (Some text) keywords = Some r /\ r <> EmptyString.
Proof. apply relevant_content_nonempty. Qed.

Lemma X12_relevant_content_nonempty_witness :
  exists r, extract_relevant_content (Some "A. B has refund info. C.") ["refund"] = Some r
            /\ r <> EmptyString.
Proof.
  apply (X12_relevant_content_nonempty "A. B has refund info. C." ["refund"]).
  - discriminate.
  - intros k Hk. apply list_elem_of_singleton in Hk as ->. discriminate.
Defined.

(** X13: when there are keywords and none of them occurs in the page
    text (letter case ignored), the relevant content is the first 1000
    characters of the text. *)
Theorem X13_relevant_content_fallback (text : string) (keywords : list string) :
  keywords <> [] ->
  (forall k, k ∈ keywords -> ~ substring (Py.lower k) (Py.lower text)) ->
  extract_relevant_content (Some text) keywords = Some (Py.take 1000 text).
Proof.
  intros Hne Hnone. unfold extract_relevant_content.
  destruct text as [|c text]; [done |].
  destruct keywords as [|k0 keywords]; [done |].
  cbn [Py.truthy negb nonempty orb].
  match goal with
  | |- (if nonempty ?l then _ else _) = _ => assert (l = []) as ->; [| done]
  end.
  match goal with |- ?l = [] => destruct l as [|x rest] eqn:Hf; [done |] end.
  exfalso.
  assert (Hx : In x (x :: rest)) by (by left).
  rewrite <- Hf in Hx. apply List.filter_In in Hx as [Hx Hm].
  apply in_map_iff in Hx as (sentence & <- & Hs).
  apply existsb_exists in Hm as (k & Hk & Hc).
  apply (Hnone k); [by apply list_elem_of_In |].
  apply contains_spec in Hc.
  apply (substring_trans _ _ _ Hc), substring_lower.
  apply (substring_trans _ sentence); [apply substring_strip |].
  by apply (split_on_substring (Ascii.eqb ".")), list_elem_of_In.
Qed.

Lemma X13_relevant_content_fallback_witness :
  extract_relevant_content (Some "Opening hours. Visit us.") ["refund"]
  = Some (Py.take 1000 "Opening hours. Visit us.").
Proof.
  apply (X13_relevant_content_fallback "Opening hours. Visit us." ["refund"]).
  - discriminate.
  - intros k Hk. apply list_elem_of_singleton in Hk as ->.
    intros Hsub. apply contains_spec in Hsub. vm_compute in Hsub. discriminate.
Defined.

(** ** The crawl step, further *)

(** X14: with an empty pending queue, or with a head index that is not
    below the length of the discovery list, the crawl step fetches
    nothing, leaves the store as it is and returns [agent_decide]; in
    the second case the index stays at the head of the queue. *)
Theorem X14_crawl_nothing_to_fetch `{Yaml} (w : world) (s : shared) (log : list event) :
  urls_to_process s = []
  \/ (exists i rest, urls_to_process s = i :: rest /\ length (all_discovered_urls s) <= i) ->
  interp w (node_run crawl_node s) log = (Returned ("agent_decide", s), log).
Proof.
  intros Hcase. simpl node_run. rewrite interp_crawl_run.
  assert (CrawlAndExtract.prep s = None) as ->; [| done].
  unfold CrawlAndExtract.prep. destruct Hcase as [-> | (i & rest & -> & Hlen)]; [done |].
  by rewrite (lookup_ge_None_2 _ _ Hlen).
Qed.

Lemma X14_crawl_nothing_to_fetch_witness :
  interp (world_of refund_page "")
         (node_run (H := no_yaml) crawl_node (set_urls_to_process [7] example_store)) []
  = (Returned ("agent_decide", set_urls_to_process [7] example_store), []).
Proof.
  apply (@X14_crawl_nothing_to_fetch no_yaml).
  right. exists 7, []. split; [reflexivity | simpl; lia].
Defined.

Lemma crawl_step_shape s result :
  snd (crawl_step s result) = s
  \/ exists i rest u,
       urls_to_process s = i :: rest /\ all_discovered_urls s !! i = Some u
       /\ (snd (crawl_step s result) = crawled s i rest
           \/ exists content,
                content <> EmptyString
                /\ snd (crawl_step s result)
                   = recorded s i rest u (sr_title result) content (sr_links result)).
Proof.
  destruct (prep_cases s) as [Hidle | (i & rest & u & Hq & Hu)].
  - left. by rewrite crawl_step_idle.
  - right. exists i, rest, u. split; [done |]. split; [done |].
    destruct (fetch_failed result) eqn:Hf.
    + left. by rewrite (crawl_step_failed s i rest u).
    + rewrite (crawl_step_succeeded s i rest u) by done. simpl.
      destruct (extract_relevant_content _ _) as [content|]; [| by left].
      destruct (Py.truthy content) eqn:Ht; [| by left].
      right. exists content. split; [| done]. by intros ->.
Qed.

Lemma crawl_step_action s result : fst (crawl_step s result) = "agent_decide".
Proof. unfold crawl_step, CrawlAndExtract.post. by destruct (_ <$> _). Qed.

(** X15: a crawl step never forgets: the old discovery list is the
    beginning of the new one, every visited index stays visited, and the
    question, its keywords and the final answer are left alone. It takes
    at most the head off the pending queue. *)
Theorem X15_crawl_step_append_only (s : shared) (result : scrape_result) :
  let s' := snd (crawl_step s result) in
  all_discovered_urls s `prefix_of` all_discovered_urls s'
  /\ visited_urls s ⊆ visited_urls s'
  /\ (urls_to_process s' = urls_to_process s
      \/ exists i, urls_to_process s = i :: urls_to_process s')
  /\ user_question s' = user_question s
  /\ question_keywords s' = question_keywords s
  /\ final_answer s' = final_answer s
  /\ fst (crawl_step s result) = "agent_decide".
Proof.
  intros s'. subst s'.
  pose proof (crawl_step_action s result) as Hact.
  destruct (crawl_step_shape s result)
    as [-> | (i & rest & u & Hq & Hu & [-> | (content & _ & ->)])]; simpl.
  - repeat split; try done. by left.
  - repeat split; try done; [set_solver | right; by exists i].
  - repeat split; try done; [| set_solver | right; by exists i].
    rewrite discover_links_merged. by apply prefix_app_r.
Qed.

(** ** Stores of a run, further *)

Lemma merged_NoDup all urls : NoDup all -> NoDup (merged all urls).
Proof.
  intros Hnd. unfold merged. apply NoDup_app. split; [done |].
  split; [| apply keep_first_NoDup].
  intros u Hu Hu'. apply keep_first_elem_of, list_elem_of_filter in Hu' as [Hn _]. done.
Qed.

(** X16: in every store of a run the discovery list has no URL twice. *)
Theorem X16_discovered_urls_distinct `{Yaml} (q b : string) (s : shared) :
  reachable q b s -> NoDup (all_discovered_urls s).
Proof.
  induction 1 as [| s result _ IH | s response action s' _ IH Hstep].
  - apply NoDup_singleton.
  - destruct (crawl_step_shape s result)
      as [-> | (i & rest & u & Hq & Hu & [-> | (content & _ & ->)])]; simpl; try done.
    rewrite discover_links_merged. by apply merged_NoDup.
  - apply post_cases in Hstep as [[_ ->] | (u & i & _ & _ & _ & _ & _ & ->)]; done.
Qed.

Lemma X16_discovered_urls_distinct_witness :
  reachable (H := no_yaml) "How do I get a refund?" "https://example.com"
            (snd (crawl_step example_store refund_page))
  /\ NoDup (all_discovered_urls (snd (crawl_step example_store refund_page))).
Proof.
  assert (Hr : reachable (H := no_yaml) "How do I get a refund?" "https://example.com"
                 (snd (crawl_step example_store refund_page)))
    by (apply reach_crawl, reach_init).
  split; [exact Hr |].
  exact (@X16_discovered_urls_distinct no_yaml _ _ _ Hr).
Defined.

Lemma content_get_put_ne i j v d :
  i <> j -> content_get j (content_put i v d) = content_get j d.
Proof.
  intros Hne. unfold content_get. induction d as [|[k x] d IH]; simpl.
  - by rewrite (proj2 (Nat.eqb_neq j i)) by done.
  - destruct (Nat.eqb i k) eqn:E; simpl.
    + apply Nat.eqb_eq in E. subst k.
      by rewrite (proj2 (Nat.eqb_neq j i)) by done.
    + destruct (Nat.eqb j k); [done | apply IH].
Qed.

Lemma records_ok_init q b : records_ok (initialize_shared_store q b).
Proof. split; intros i r Hr; discriminate Hr. Qed.

Lemma records_ok_crawl_step s result :
  records_ok s -> records_ok (snd (crawl_step s result)).
Proof.
  intros [Hv Hu Hc].
  destruct (crawl_step_shape s result)
    as [-> | (i & rest & u & Hq & Hiu & [-> | (content & Hne & ->)])]; [done | |].
  - split; simpl; [| done | done]. intros j r Hr. apply elem_of_union_r. by apply (Hv j r).
  - split; simpl; intros j r; (destruct (decide (i = j)) as [<- | Hij];
      [rewrite content_get_put; intros [= <-]
      | rewrite content_get_put_ne by done; intros Hr]).
    + apply elem_of_union_l, elem_of_singleton. done.
    + apply elem_of_union_r. by apply (Hv j r).
    + simpl. by apply discover_links_lookup.
    + by apply discover_links_lookup, Hu.
    + done.
    + by apply (Hc j r).
Qed.

Lemma records_ok_post s d action s' :
  records_ok s -> AgentDecision.post s d = inr (action, s') -> records_ok s'.
Proof.
  intros Hok Hpost.
  apply post_cases in Hpost as [[_ ->] | (u & i & _ & _ & _ & _ & _ & ->)]; [done |].
  by destruct Hok.
Qed.

Lemma reachable_records_ok `{Yaml} q b s : reachable q b s -> records_ok s.
Proof.
  induction 1 as [| s result _ IH | s response action s' _ IH Hstep].
  - apply records_ok_init.
  - by apply records_ok_crawl_step.
  - exact (records_ok_post s _ action s' IH Hstep).
Qed.

(** X17: in every store of a run a page record belongs to a visited
    index, carries the discovered URL of that index, and has content
    that is not empty. *)
Theorem X17_page_records_of_visited_pages `{Yaml} (q b : string) (s : shared)
    (i : nat) (r : page_record) :
  reachable q b s ->
  content_get i (url_content s) = Some r ->
  i ∈ visited_urls s
  /\ all_discovered_urls s !! i = Some (pr_url r)
  /\ pr_content r <> EmptyString.
Proof.
  intros Hr Hrec. destruct (reachable_records_ok q b s Hr) as [Hv Hu Hc].
  split; [by apply (Hv i r) |]. split; [by apply Hu | by apply (Hc i r)].
Qed.

Lemma X17_page_records_of_visited_pages_witness :
  reachable (H := no_yaml) "How do I get a refund?" "https://example.com"
            (snd (crawl_step example_store refund_page))
  /\ 0 ∈ visited_urls (snd (crawl_step example_store refund_page))
  /\ all_discovered_urls (snd (crawl_step example_store refund_page)) !! 0
     = Some "https://example.com"
  /\ "Ask for a refund here" <> EmptyString.
Proof.
  assert (Hr : reachable (H := no_yaml) "How do I get a refund?" "https://example.com"
                 (snd (crawl_step example_store refund_page)))
    by (apply reach_crawl, reach_init).
  split; [exact Hr |].
  apply (@X17_page_records_of_visited_pages no_yaml _ _ _ 0
           {| pr_url := "https://example.com"; pr_title := Some "Shop";
              pr_content := "Ask for a refund here" |} Hr).
  vm_compute. reflexivity.
Defined.

(** X18: a page record, once stored, is never changed: in a run, no
    crawl step and no decision step alters or removes a record. *)
Theorem X18_page_records_immutable `{Yaml} (q b : string) (s : shared)
    (j : nat) (r : page_record) :
  reachable q b s ->
  content_get j (url_content s) = Some r ->
  (forall result, content_get j (url_content (snd (crawl_step s result))) = Some r)
  /\ (forall response action s',
        decision_step s response = inr (action, s') ->
        content_get j (url_content s') = Some r).
Proof.
  intros Hr Hrec. split.
  - intros result.
    destruct (reachable_frontier_ok q b s Hr) as [_ Hdis _ _].
    destruct (reachable_records_ok q b s Hr) as [Hv _ _].
    destruct (crawl_step_shape s result)
      as [-> | (i & rest & u & Hq & Hiu & [-> | (content & Hne & ->)])]; try done.
    simpl. rewrite content_get_put_ne; [done |].
    intros <-. apply (Hdis i); [rewrite Hq; apply elem_of_cons; by left |].
    by apply (Hv i r).
  - intros response action s' Hstep.
    apply post_cases in Hstep as [[_ ->] | (u & i & _ & _ & _ & _ & _ & ->)]; done.
Qed.

Lemma X18_page_records_immutable_witness :
  let s := snd (crawl_step example_store refund_page) in
  let r := {| pr_url := "https://example.com"; pr_title := Some "Shop";
              pr_content := "Ask for a refund here" |} in
  (forall result, content_get 0 (url_content (snd (crawl_step s result))) = Some r)
  /\ (forall response action s',
        decision_step (H := no_yaml) s response = inr (action, s') ->
        content_get 0 (url_content s') = Some r).
Proof.
  intros s r.
  apply (@X18_page_records_immutable no_yaml "How do I get a refund?"
           "https://example.com" s 0 r).
  - apply reach_crawl, reach_init.
  - vm_compute. reflexivity.
Defined.

Lemma reachable_question `{Yaml} q b s :
  reachable q b s ->
  user_question s = q /\ question_keywords s = extract_question_keywords q.
Proof.
  induction 1 as [| s result _ IH | s response action s' _ IH Hstep].
  - done.
  - destruct (crawl_step_shape s result)
      as [-> | (i & rest & u & Hq & Hu & [-> | (content & _ & ->)])]; done.
  - apply post_cases in Hstep as [[_ ->] | (u & i & _ & _ & _ & _ & _ & ->)]; done.
Qed.

Lemma keyword_nonempty question k :
  k ∈ extract_question_keywords question -> k <> EmptyString.
Proof.
  unfold extract_question_keywords. intros [Hp _]%list_elem_of_filter.
  apply Is_true_true, andb_true_iff in Hp as [_ Hlen]. apply Nat.ltb_lt in Hlen.
  intros ->. simpl in Hlen. lia.
Qed.

(** X19: in a run, the successful fetch of a page whose text is not
    empty always leaves a page record for the fetched index, with the
    URL fetched, the title of the page and content that is not empty. *)
Theorem X19_page_with_text_is_recorded `{Yaml} (q b : string) (s : shared)
    (i : nat) (rest : list nat) (u : string) (result : scrape_result) (text : string) :
  reachable q b s ->
  urls_to_process s = i :: rest ->
  all_discovered_urls s !! i = Some u ->
  fetch_failed result = false ->
  sr_content result = Some text ->
  text <> EmptyString ->
  exists content,
    content <> EmptyString
    /\ content_get i (url_content (snd (crawl_step s result)))
       = Some {| pr_url := u; pr_title := sr_title result; pr_content := content |}.
Proof.
  intros Hr Hq Hu Hok Hc Htext.
  destruct (reachable_question q b s Hr) as [_ Hkw].
  destruct (relevant_content_nonempty text (question_keywords s) Htext)
    as (content & Hrel & Hne).
  { rewrite Hkw. intros k. apply keyword_nonempty. }
  exists content. split; [done |].
  rewrite (crawl_step_succeeded s i rest u) by done. rewrite Hc, Hrel.
  destruct content; [done |]. simpl. apply content_get_put.
Qed.

Lemma X19_page_with_text_is_recorded_witness :
  exists content,
    content <> EmptyString
    /\ content_get 0 (url_content (snd (crawl_step example_store refund_page)))
       = Some {| pr_url := "https://example.com"; pr_title := sr_title refund_page;
                 pr_content := content |}.
Proof.
  apply (@X19_page_with_text_is_recorded no_yaml "How do I get a refund?"
           "https://example.com" example_store 0 [] "https://example.com" refund_page
           "Welcome. Ask for a refund here.");
    [apply reach_init | reflexivity | reflexivity | reflexivity | reflexivity
    | discriminate].
Defined.

(** ** The decision step, further *)

Lemma enumerate_elem {A} (l : list A) i x :
  (i, x) ∈ enumerate l <-> l !! i = Some x.
Proof.
  unfold enumerate. rewrite elem_of_lookup_imap. split.
  - intros (j & y & [= -> ->] & Hl). done.
  - intros Hl. by exists i, x.
Qed.

(** X20: the context the decision step prepares holds at most 10
    candidate links, each of them a discovered URL at an index that is
    not visited, and none at all as long as nothing is visited; it holds
    one entry per page record, with at most 500 characters of content. *)
Theorem X20_decision_context_bounds (s : shared) (p : AgentDecision.prep_res) :
  AgentDecision.prep s = Some p ->
  length (AgentDecision.available_links p) <= 10
  /\ (forall l, l ∈ AgentDecision.available_links p ->
        link_text l = link_url l
        /\ exists i, all_discovered_urls s !! i = Some (link_url l)
                     /\ i ∉ visited_urls s)
  /\ (visited_urls s = ∅ -> AgentDecision.available_links p = [])
  /\ length (AgentDecision.collected_info p) = length (url_content s)
  /\ (forall c, c ∈ AgentDecision.collected_info p ->
                String.length (AgentDecision.ci_content c) <= 500).
Proof.
  unfold AgentDecision.prep. intros Hp. apply (inj Some) in Hp. subst p.
  cbn [AgentDecision.available_links AgentDecision.collected_info].
  split; [rewrite length_take; lia |]. split; [| split; [| split]].
  - intros l Hl. apply (subseteq_take 10) in Hl.
    destruct (nonempty _ && negb _); [| by apply elem_of_nil in Hl].
    apply list_elem_of_fmap in Hl as ([i url] & -> & Hin). simpl.
    split; [done |]. exists i.
    apply list_elem_of_In, List.filter_In in Hin as [Hin Hv]. simpl in Hv.
    apply list_elem_of_In, enumerate_elem in Hin. split; [done |].
    by apply negb_true_iff, bool_decide_eq_false in Hv.
  - intros ->. rewrite bool_decide_eq_true_2 by done. by rewrite andb_false_r.
  - apply length_map.
  - intros c Hc. apply list_elem_of_fmap in Hc as (entry & -> & _).
    cbn [AgentDecision.ci_content]. apply length_take_string.
Qed.

Lemma X20_decision_context_bounds_witness :
  exists p,
    AgentDecision.prep (snd (crawl_step example_store refund_page)) = Some p
    /\ length (AgentDecision.available_links p) <= 10
    /\ (forall l, l ∈ AgentDecision.available_links p ->
          link_text l = link_url l
          /\ exists i,
               all_discovered_urls (snd (crawl_step example_store refund_page)) !! i
               = Some (link_url l)
               /\ i ∉ visited_urls (snd (crawl_step example_store refund_page)))
    /\ (visited_urls (snd (crawl_step example_store refund_page)) = ∅ ->
        AgentDecision.available_links p = [])
    /\ length (AgentDecision.collected_info p)
       = length (url_content (snd (crawl_step example_store refund_page)))
    /\ (forall c, c ∈ AgentDecision.collected_info p ->
                  String.length (AgentDecision.ci_content c) <= 500).
Proof.
  eexists. split; [reflexivity |].
  apply (X20_decision_context_bounds (snd (crawl_step example_store refund_page))).
  reflexivity.
Defined.

Lemma valid_action_inv v :
  AgentDecision.valid_action v = true -> v = PStr "explore" \/ v = PStr "answer".
Proof.
  unfold AgentDecision.valid_action. intros [Hv | Hv]%orb_true_iff.
  - left. by apply is_str_true.
  - right. by apply is_str_true.
Qed.

Lemma parse_decision_action `{Yaml} (response : string) :
  exists v, dict_get "action" (AgentDecision.parse_decision response) = Some v
            /\ (v = PStr "explore" \/ v = PStr "answer").
Proof.
  unfold AgentDecision.parse_decision.
  destruct (AgentDecision.yaml_block response) as [text|];
    [| exists (PStr "answer"); by split; [| right]].
  destruct (safe_load text) as [v | msg];
    [| exists (PStr "answer"); by split; [| right]].
  destruct v as [| | | | | | d | | | |];
    try (exists (PStr "answer"); by split; [| right]).
  destruct (validate_mapping d) as ((v & Hv & Hvalid) & _).
  exists v. split; [done | by apply valid_action_inv].
Qed.

(** X21: whatever the model answers and whatever the YAML library makes
    of it, the decision the step returns has the action [explore] or the
    action [answer]; and a block that loads to a mapping with one of
    these two actions is returned as it was loaded. *)
Theorem X21_decision_action_always_valid `{Yaml} (response : string) :
  (exists v, dict_get "action" (AgentDecision.parse_decision response) = Some v
             /\ (v = PStr "explore" \/ v = PStr "answer"))
  /\ (forall text d v,
        AgentDecision.yaml_block response = Some text ->
        safe_load text = YValue (PDict d) ->
        dict_get "action" d = Some v ->
        v = PStr "explore" \/ v = PStr "answer" ->
        AgentDecision.parse_decision response = d).
Proof.
  split; [apply parse_decision_action |].
  unfold AgentDecision.parse_decision.
  intros text d v -> -> Ha Hv. simpl. rewrite Ha.
  by destruct Hv as [-> | ->].
Qed.

(** ** Locating the block of a response *)

Lemma length_append (a b : string) :
  String.length (a +:+ b) = String.length a + String.length b.
Proof. induction a as [|c a IH]; [done |]. rewrite append_cons. simpl. by rewrite IH. Qed.

Lemma drop_append (a b : string) : Py.drop (String.length a) (a +:+ b) = b.
Proof. induction a as [|c a IH]; [by destruct b |]. by rewrite append_cons. Qed.

Lemma take_append (a b : string) : Py.take (String.length a) (a +:+ b) = a.
Proof.
  induction a as [|c a IH]; [by destruct b |]. rewrite append_cons. simpl. by rewrite IH.
Qed.

Lemma find_at_here sub s i : Py.startswith sub s = true -> Py.find_at sub s i = Z.of_nat i.
Proof. intros Hs. destruct s; simpl; by rewrite Hs. Qed.

Lemma startswith_append sub r : Py.startswith sub (sub +:+ r) = true.
Proof. apply startswith_spec. by exists r. Qed.

Lemma find_at_skip c0 sub' pre rest i :
  all_chars (fun c => negb (Ascii.eqb c c0)) pre = true ->
  Py.find_at (String c0 sub') (pre +:+ rest) i
  = Py.find_at (String c0 sub') rest (i + String.length pre).
Proof.
  revert i. induction pre as [|c pre IH]; intros i Hpre.
  - rewrite append_nil_l. simpl. by rewrite Nat.add_0_r.
  - simpl in Hpre. apply andb_true_iff in Hpre as [Hc Hpre].
    rewrite append_cons. simpl. rewrite Ascii.eqb_sym.
    apply negb_true_iff in Hc. rewrite Hc, (IH (S i) Hpre).
    f_equal. lia.
Qed.

Lemma find_at_none c0 sub' s i :
  all_chars (fun c => negb (Ascii.eqb c c0)) s = true ->
  Py.find_at (String c0 sub') s i = (-1)%Z.
Proof.
  revert i. induction s as [|c s IH]; intros i Hs; [done |].
  simpl in Hs. apply andb_true_iff in Hs as [Hc Hs].
  simpl. rewrite Ascii.eqb_sym. apply negb_true_iff in Hc. rewrite Hc. by apply IH.
Qed.

Lemma find_from_nat s sub (n : nat) :
  n <= String.length s ->
  Py.find s sub (Z.of_nat n) = Py.find_at sub (Py.drop n s) n.
Proof.
  intros Hn. unfold Py.find, Py.len.
  assert (H0 : (Z.of_nat n <? 0)%Z = false) by lia.
  assert (H1 : (Z.of_nat (String.length s) <? Z.of_nat n)%Z = false) by lia.
  rewrite H0. cbv beta zeta iota. rewrite H1. by rewrite Nat2Z.id.
Qed.

Lemma slice_nat s (a b : nat) :
  a <= b -> b <= String.length s ->
  Py.slice s (Z.of_nat a) (Z.of_nat b) = Py.take (b - a) (Py.drop a s).
Proof.
  intros Hab Hb.
  assert (Hclamp : forall k, k <= String.length s -> Py.clamp s (Z.of_nat k) = k).
  { intros k Hk. unfold Py.clamp, Py.len.
    assert (H0 : (Z.of_nat k <? 0)%Z = false) by lia.
    rewrite H0. cbv beta zeta iota. lia. }
  unfold Py.slice. rewrite !Hclamp by lia. done.
Qed.

(** X22: a response that holds, after a text without back quotes, a
    block opened by the yaml fence and closed by a fence, the text in
    between having no back quote, gives that text, trimmed, as its
    block, whatever follows the closing fence. *)
Theorem X22_yaml_block_round_trip (pre body post : string) :
  no_backtick pre = true ->
  no_backtick body = true ->
  AgentDecision.yaml_block
    (pre +:+ (fence +:+ "yaml") +:+ body +:+ fence +:+ post)
  = Some (Py.strip body).
Proof.
  unfold no_backtick, fence. intros Hpre Hbody.
  set (response := pre +:+ ("```" +:+ "yaml") +:+ body +:+ "```" +:+ post).
  assert (Hlen : String.length response
                 = String.length pre + 7 + String.length body + 3 + String.length post).
  { unfold response. rewrite !length_append. simpl. lia. }
  assert (Hstart : Py.find response "```yaml" 0 = Z.of_nat (String.length pre)).
  { rewrite (find_from_nat response _ 0) by lia. simpl Py.drop.
    replace (Py.drop 0 response) with response by (by destruct response).
    unfold response. rewrite (find_at_skip _ _ pre) by done.
    rewrite find_at_here; [done |].
    change ("```" +:+ "yaml") with "```yaml". apply startswith_append. }
  assert (Hdrop : Py.drop (String.length pre + 7) response = body +:+ "```" +:+ post).
  { unfold response. rewrite <- append_assoc.
    replace (String.length pre + 7) with (String.length (pre +:+ "```" +:+ "yaml"))
      by (rewrite length_append; simpl; lia).
    apply drop_append. }
  assert (Hend : Py.find response "```" (Z.of_nat (String.length pre) + 7)
                 = Z.of_nat (String.length pre + 7 + String.length body)).
  { replace (Z.of_nat (String.length pre) + 7)%Z
      with (Z.of_nat (String.length pre + 7)) by lia.
    rewrite find_from_nat by lia. rewrite Hdrop.
    rewrite (find_at_skip _ _ body) by done.
    by rewrite find_at_here by apply startswith_append. }
  unfold AgentDecision.yaml_block. fold response. rewrite Hstart, Hend.
  rewrite (proj2 (Z.eqb_neq _ (-1))) by lia.
  rewrite (proj2 (Z.eqb_neq _ (-1))) by lia.
  cbn [negb andb].
  replace (Z.of_nat (String.length pre) + 7)%Z
    with (Z.of_nat (String.length pre + 7)) by lia.
  rewrite slice_nat by lia. rewrite Hdrop.
  replace (String.length pre + 7 + String.length body - (String.length pre + 7))
    with (String.length body) by lia.
  by rewrite take_append.
Qed.

Lemma X22_yaml_block_round_trip_witness :
  AgentDecision.yaml_block
    ("I will look further." +:+ (fence +:+ "yaml")
     +:+ (Py.nl +:+ "action: explore" +:+ Py.nl) +:+ fence +:+ " Done.")
  = Some (Py.strip (Py.nl +:+ "action: explore" +:+ Py.nl)).
Proof.
  apply (X22_yaml_block_round_trip "I will look further."
           (Py.nl +:+ "action: explore" +:+ Py.nl) " Done.");
    vm_compute; reflexivity.
Defined.

(** X23: a response without any back quote, and a response that opens
    a yaml block but never closes it, have no block; the decision is
    then the fallback: action [answer], reasoning "Failed to parse
    decision". *)
Theorem X23_unterminated_block_is_absent `{Yaml} (pre body : string) :
  no_backtick pre = true ->
  no_backtick body = true ->
  AgentDecision.yaml_block pre = None
  /\ AgentDecision.yaml_block (pre +:+ (fence +:+ "yaml") +:+ body) = None
  /\ AgentDecision.parse_decision (pre +:+ (fence +:+ "yaml") +:+ body)
     = AgentDecision.fallback.
Proof.
  unfold no_backtick, fence. intros Hpre Hbody.
  assert (Hnone : AgentDecision.yaml_block pre = None).
  { unfold AgentDecision.yaml_block.
    assert (Py.find pre "```yaml" 0 = (-1)%Z) as ->; [| done].
    rewrite (find_from_nat pre _ 0) by lia.
    replace (Py.drop 0 pre) with pre by (by destruct pre).
    by apply find_at_none. }
  set (response := pre +:+ ("```" +:+ "yaml") +:+ body).
  assert (Hopen : AgentDecision.yaml_block response = None).
  { assert (Hlen : String.length response = String.length pre + 7 + String.length body).
    { unfold response. rewrite !length_append. simpl. lia. }
    assert (Hstart : Py.find response "```yaml" 0 = Z.of_nat (String.length pre)).
    { rewrite (find_from_nat response _ 0) by lia.
      replace (Py.drop 0 response) with response by (by destruct response).
      unfold response. rewrite (find_at_skip _ _ pre) by done.
      rewrite find_at_here; [done |].
      change ("```" +:+ "yaml") with "```yaml". apply startswith_append. }
    assert (Hdrop : Py.drop (String.length pre + 7) response = body).
    { unfold response. rewrite <- append_assoc.
      replace (String.length pre + 7) with (String.length (pre +:+ "```" +:+ "yaml"))
        by (rewrite length_append; simpl; lia).
      apply drop_append. }
    unfold AgentDecision.yaml_block. rewrite Hstart.
    replace (Z.of_nat (String.length pre) + 7)%Z
      with (Z.of_nat (String.length pre + 7)) by lia.
    rewrite find_from_nat by lia. rewrite Hdrop, find_at_none by done.
    by rewrite andb_false_r. }
  split; [done |]. split; [done |].
  unfold AgentDecision.parse_decision. by rewrite Hopen.
Qed.

Lemma X23_unterminated_block_is_absent_witness :
  AgentDecision.yaml_block "Let me think." = None
  /\ AgentDecision.yaml_block ("Let me think." +:+ (fence +:+ "yaml") +:+ " action: explore")
     = None
  /\ AgentDecision.parse_decision (H := no_yaml)
       ("Let me think." +:+ (fence +:+ "yaml") +:+ " action: explore")
     = AgentDecision.fallback.
Proof.
  apply (@X23_unterminated_block_is_absent no_yaml "Let me think." " action: explore");
    vm_compute; reflexivity.
Defined.

(** ** The decision step raising *)

Lemma explore_action d :
  is_str "explore" (default (PStr "answer") (dict_get "action" d)) = true
  <-> dict_get "action" d = Some (PStr "explore").
Proof.
  split.
  - destruct (dict_get "action" d) as [v|]; simpl; [| discriminate].
    intros Hv. by rewrite (is_str_true _ _ Hv).
  - by intros ->.
Qed.

(** When [post] raises, and what. *)
Lemma post_raises s d e :
  AgentDecision.post s d = inl e
  <-> dict_get "action" d = Some (PStr "explore")
      /\ exists v, dict_get "next_url" d = Some v /\ next_url_raises s v e.
Proof.
  rewrite <- explore_action.
  unfold AgentDecision.post, AgentDecision.next_url_of, next_url_raises.
  destruct (is_str "explore" _); [| split; [discriminate | by intros [? _]]].
  destruct (dict_get "next_url" d) as [v|]; simpl.
  - destruct v; simpl.
    all: try (split; [intros [= <-]; split; [done |]; eexists; by split
                  | by intros (_ & v' & [= <-] & ->)]).
    + split.
      * destruct (AgentDecision.find_url_index _ _); [| discriminate].
        destruct (negb _ && negb _); discriminate.
      * by intros (_ & v' & [= <-] & ?).
    + destruct (all_discovered_urls s) as [|url urls]; split.
      * discriminate.
      * by intros (_ & v' & [= <-] & _ & ?).
      * intros [= <-]. split; [done |]. eexists. by split.
      * by intros (_ & v' & [= <-] & -> & _).
  - split.
    + destruct (AgentDecision.find_url_index _ _); [| discriminate].
      destruct (negb _ && negb _); discriminate.
    + by intros (_ & v' & ? & _).
Qed.

Lemma post_inl s d e :
  AgentDecision.post s d = inl e -> e = AttributeError \/ e = TypeError.
Proof.
  intros (_ & v & _ & Hv)%post_raises. unfold next_url_raises in Hv. destruct v; try (by left).
  right. by destruct Hv.
Qed.

(** X24: the decision step raises exactly when the decision has the
    action [explore] and a [next_url] that is present but no text: an
    [AttributeError] for a value without [strip] (a YAML null, a number,
    a list), a [TypeError] for bytes, provided there is a discovered URL
    to compare them with. The node raises the error to the run after the
    model call, and no store comes out of the step. *)
Theorem X24_explore_without_text_url_raises `{Yaml} (w : world) (s : shared)
    (log : list event) (response : string) (e : exn) :
  call_llm w (length log) (decision_prompt s) = inr (Some response) ->
  (decision_step s response = inl e
   <-> dict_get "action" (AgentDecision.parse_decision response) = Some (PStr "explore")
       /\ exists v, dict_get "next_url" (AgentDecision.parse_decision response) = Some v
                    /\ next_url_raises s v e)
  /\ (decision_step s response = inl e ->
      interp w (node_run agent_node s) log
      = (Raised e, log ++ [EvLlm (decision_prompt s)])).
Proof.
  intros Hllm. split; [apply post_raises |].
  intros Hstep. simpl node_run. rewrite interp_agent_run, Hllm. by rewrite Hstep.
Qed.

Lemma X24_explore_without_text_url_raises_witness :
  (decision_step (H := bytes_url_yaml) example_store bytes_url_response = inl TypeError
   <-> dict_get "action" (AgentDecision.parse_decision (H := bytes_url_yaml) bytes_url_response)
       = Some (PStr "explore")
       /\ exists v, dict_get "next_url"
                      (AgentDecision.parse_decision (H := bytes_url_yaml) bytes_url_response)
                    = Some v
                    /\ next_url_raises example_store v TypeError)
  /\ (decision_step (H := bytes_url_yaml) example_store bytes_url_response
      = inl TypeError ->
      interp (world_of refund_page bytes_url_response)
             (node_run (H := bytes_url_yaml) agent_node example_store) []
      = (Raised TypeError, [] ++ [EvLlm (decision_prompt example_store)])).
Proof.
  apply (@X24_explore_without_text_url_raises bytes_url_yaml
           (world_of refund_page bytes_url_response) example_store [] bytes_url_response
           TypeError).
  reflexivity.
Defined.

(** The decision step does raise on the response with the empty
    [next_url:] entry, and on the one with a binary [next_url]. *)
Lemma null_url_response_raises :
  decision_step (H := null_url_yaml) example_store null_url_response = inl AttributeError.
Proof. vm_compute. reflexivity. Qed.

Lemma bytes_url_response_raises :
  decision_step (H := bytes_url_yaml) example_store bytes_url_response = inl TypeError.
Proof. vm_compute. reflexivity. Qed.

(** A model that returns [None] is answered with [answer]: the store is
    left as it is, so that the stores of a run are those of [reachable]
    also for such a model. *)
Lemma none_reply_answers `{Yaml} (w : world) (s : shared) (log : list event) :
  call_llm w (length log) (decision_prompt s) = inr None ->
  AgentDecision.parse_reply None = AgentDecision.parse_error AgentDecision.none_find_error
  /\ interp w (node_run agent_node s) log
     = (Returned ("answer", s), log ++ [EvLlm (decision_prompt s)]).
Proof.
  intros Hllm. split; [done |]. simpl node_run. by rewrite interp_agent_run, Hllm.
Qed.

(** ** The answer step *)

Lemma interp_draft_no_content `{Yaml} (w : world) (s : shared) (log : list event) :
  url_content s = [] ->
  interp w (node_run draft_answer_node s) log
  = (Returned ("default", set_final_answer (Some no_relevant_information) s), log).
Proof.
  intros Hc. simpl node_run. rewrite interp_bind.
  unfold DraftAnswer.run, DraftAnswer.exec, DraftAnswer.prep.
  cbn [DraftAnswer.content]. by rewrite Hc.
Qed.

(** X25: with no page record in the store, the answer step does not
    call the model: the final answer is the fixed text that no relevant
    information was found, and the flow ends there. *)
Theorem X25_answer_without_content `{Yaml} (w : world) (s : shared) (log : list event) :
  url_content s = [] ->
  interp w (node_run draft_answer_node s) log
  = (Returned ("default", set_final_answer (Some no_relevant_information) s), log)
  /\ successors create_chatbot_flow draft_answer_node "default" = None.
Proof.
  intros Hc. split; [by apply interp_draft_no_content | done].
Qed.

Lemma X25_answer_without_content_witness :
  interp (world_of failed_fetch "") (node_run (H := no_yaml) draft_answer_node example_store) []
  = (Returned ("default", set_final_answer (Some no_relevant_information) example_store), [])
  /\ successors create_chatbot_flow draft_answer_node "default" = None.
Proof. apply (@X25_answer_without_content no_yaml). reflexivity. Defined.

Lemma interp_draft_reply `{Yaml} (w : world) (s : shared) (log : list event) :
  url_content s <> [] ->
  interp w (node_run draft_answer_node s) log
  = match call_llm w (length log) (answer_prompt s) with
    | inr response =>
        (Returned ("default", set_final_answer response s), log ++ [EvLlm (answer_prompt s)])
    | inl e => (Raised e, log ++ [EvLlm (answer_prompt s)])
    end.
Proof.
  intros Hc. simpl node_run. rewrite interp_bind.
  unfold DraftAnswer.run, answer_prompt, DraftAnswer.exec, DraftAnswer.prep.
  cbn [DraftAnswer.content].
  destruct (url_content s) as [|entry rest] eqn:Hu; [done |].
  cbn [map nonempty bind interp].
  by destruct (call_llm w (length log) _) as [e | response].
Qed.

(** X26: with at least one page record, the answer step calls the
    model exactly once and stores what it returned, unchanged (a text,
    or [None]), as the final answer; when that call fails, the error is
    raised to the run and no answer is stored. *)
Theorem X26_answer_is_model_response `{Yaml} (w : world) (s : shared) (log : list event) :
  url_content s <> [] ->
  match call_llm w (length log) (answer_prompt s) with
  | inr response =>
      interp w (node_run draft_answer_node s) log
      = (Returned ("default", set_final_answer response s),
         log ++ [EvLlm (answer_prompt s)])
  | inl e =>
      interp w (node_run draft_answer_node s) log
      = (Raised e, log ++ [EvLlm (answer_prompt s)])
  end.
Proof.
  intros Hc. rewrite (interp_draft_reply w s log Hc).
  by destruct (call_llm w (length log) _) as [e | response].
Qed.

(** The same step when the model returns [None]: the final answer is
    [None], as it was before the run. *)
Lemma interp_draft_none `{Yaml} (w : world) (s : shared) (log : list event) :
  url_content s <> [] ->
  call_llm w (length log) (answer_prompt s) = inr None ->
  interp w (node_run draft_answer_node s) log
  = (Returned ("default", set_final_answer None s), log ++ [EvLlm (answer_prompt s)]).
Proof. intros Hc Hllm. by rewrite (interp_draft_reply w s log Hc), Hllm. Qed.

Lemma X26_answer_is_model_response_witness :
  interp (world_of refund_page "You can ask for a refund.")
         (node_run (H := no_yaml) draft_answer_node
            (snd (crawl_step example_store refund_page))) []
  = (Returned ("default",
               set_final_answer (Some "You can ask for a refund.")
                                (snd (crawl_step example_store refund_page))),
     [] ++ [EvLlm (answer_prompt (snd (crawl_step example_store refund_page)))]).
Proof.
  apply (@X26_answer_is_model_response no_yaml
           (world_of refund_page "You can ask for a refund.")
           (snd (crawl_step example_store refund_page)) []).
  vm_compute. discriminate.
Defined.

(** ** Runs, further *)

Lemma frontier_ok_final_answer a s : frontier_ok s -> frontier_ok (set_final_answer a s).
Proof. intros [Hnd Hdis Hpv Hvv]. by split. Qed.

Lemma node_run_returns `{Yaml} (w : world) (n : node) (s : shared) (log : list event)
    action s' log' :
  interp w (node_run n s) log = (Returned (action, s'), log') ->
  frontier_ok s ->
  frontier_ok s'
  /\ match n with
     | crawl_node => action = "agent_decide"
     | agent_node => action = "explore" \/ action = "answer"
     | draft_answer_node =>
         action = "default" /\ (final_answer s' = None -> answer_withheld w s' log')
     end.
Proof.
  intros Hrun Hok. destruct n; simpl node_run in Hrun.
  - rewrite interp_crawl_run in Hrun.
    destruct (CrawlAndExtract.prep s) as [p|]; [| by simplify_eq].
    set (result := scrape_website w (length log) (CrawlAndExtract.url p)) in Hrun.
    pose proof (crawl_step_action s result) as Hact.
    pose proof (frontier_ok_crawl_step s result Hok) as Hok'.
    destruct (crawl_step s result) as [a s1]. simpl in *. by simplify_eq.
  - rewrite interp_agent_run in Hrun.
    destruct (call_llm w (length log) _) as [e | [response |]];
      [discriminate | | injection Hrun as <- <- _; auto].
    destruct (decision_step s response) as [e | [a s1]] eqn:Hstep; [discriminate |].
    injection Hrun as -> -> _. split; [exact (frontier_ok_post s _ _ _ Hok Hstep) |].
    apply post_cases in Hstep as [[-> _] | (u & i & _ & _ & _ & _ & -> & _)]; auto.
  - destruct (url_content s) as [|entry rest] eqn:Hc.
    + rewrite (interp_draft_no_content w s log Hc) in Hrun.
      injection Hrun as <- <- _.
      split; [by apply frontier_ok_final_answer |]. split; [done | discriminate].
    + assert (Hne : url_content s <> []) by (by rewrite Hc).
      rewrite (interp_draft_reply w s log Hne) in Hrun.
      destruct (call_llm w (length log) (answer_prompt s)) as [e | reply] eqn:Hllm;
        [discriminate |].
      injection Hrun as <- <- <-.
      split; [by apply frontier_ok_final_answer |]. split; [done |].
      simpl. intros ->. split; [exact Hne |]. by exists log.
Qed.

Lemma interp_orch_raise `{Yaml} (w : world) (f : flow) (fuel : nat) (curr : node)
    (s : shared) (log : list event) e log' :
  interp w (node_run curr s) log = (Raised e, log') ->
  interp w (orch f (S fuel) curr s) log = (Raised e, log').
Proof. intros Hrun. simpl orch. by rewrite interp_bind, Hrun. Qed.

Lemma orch_rest_returns (x : node * string)
    (res : outcome (option (list (node * string) * shared)) * list event)
    tr s' log' :
  match res with
  | (Returned rest, log'') =>
      (Returned ((fun tr => (x :: fst tr, snd tr)) <$> rest), log'')
  | (Raised e, log'') => (Raised e, log'')
  end = (Returned (Some (tr, s')), log') ->
  exists tr0, res = (Returned (Some (tr0, s')), log') /\ tr = x :: tr0.
Proof.
  destruct res as [[[[tr0 s0]|] | e] log2]; simpl; try discriminate.
  intros Hres. exists tr0. by simplify_eq.
Qed.

Lemma orch_returns `{Yaml} (w : world) (fuel : nat) (n : node) (s : shared)
    (log : list event) tr s' log' :
  interp w (orch create_chatbot_flow fuel n s) log = (Returned (Some (tr, s')), log') ->
  frontier_ok s ->
  frontier_ok s' /\ (final_answer s' = None -> answer_withheld w s' log')
  /\ last tr = Some (draft_answer_node, "default").
Proof.
  revert n s log tr. induction fuel as [|fuel IH]; intros n s log tr Hrun Hok;
    [discriminate |].
  destruct (interp w (node_run n s) log) as [[[a s1] | e] log1] eqn:Hnode;
    [| by rewrite (interp_orch_raise w _ fuel n s log e log1 Hnode) in Hrun].
  rewrite (interp_orch_step w _ fuel n s log a s1 log1 Hnode) in Hrun.
  destruct (node_run_returns w n s log a s1 log1 Hnode Hok) as [Hok1 Hact].
  assert (Hnext : forall next,
             match interp w (orch create_chatbot_flow fuel next s1) log1 with
             | (Returned rest, log'') =>
                 (Returned ((fun tr => ((n, a) :: fst tr, snd tr)) <$> rest), log'')
             | (Raised e, log'') => (Raised e, log'')
             end = (Returned (Some (tr, s')), log') ->
             frontier_ok s' /\ (final_answer s' = None -> answer_withheld w s' log')
             /\ last tr = Some (draft_answer_node, "default")).
  { intros next Hres. apply orch_rest_returns in Hres as (tr0 & Hrest & ->).
    destruct (IH next s1 log1 tr0 Hrest Hok1) as (Hok' & Hans & Hlast).
    split; [done |]. split; [done |].
    destruct tr0 as [|x tr0]; [discriminate |]. by rewrite last_cons_cons. }
  destruct n; simpl successors in Hrun.
  - subst a. simpl in Hrun. by apply (Hnext agent_node).
  - destruct Hact as [-> | ->]; simpl in Hrun.
    + by apply (Hnext crawl_node).
    + by apply (Hnext draft_answer_node).
  - destruct Hact as [-> Hans]. by simplify_eq.
Qed.

(** X27: whatever the fetcher and the model answer, a run that comes
    to an end has run the answer step last, and its store still has no
    index both pending and visited and no pending or visited index
    beyond the discovery list. It holds a final answer unless the model
    returned [None] when asked for the answer: a model that never
    returns [None] always leaves one. *)
Theorem X27_finished_run_ends_with_answer_step `{Yaml} (w : world) (fuel : nat) (q b : string)
    (tr : list (node * string)) (s : shared) (log : list event) :
  interp w (run_chatbot fuel q b) [] = (Returned (Some (tr, s)), log) ->
  last tr = Some (draft_answer_node, "default")
  /\ (final_answer s = None -> answer_withheld w s log)
  /\ ((forall n prompt, call_llm w n prompt <> inr None) -> is_Some (final_answer s))
  /\ (forall i, ~ (i ∈ urls_to_process s /\ i ∈ visited_urls s))
  /\ (forall i, i ∈ urls_to_process s \/ i ∈ visited_urls s ->
                i < length (all_discovered_urls s)).
Proof.
  unfold run_chatbot. intros Hrun.
  destruct (orch_returns w fuel _ _ [] tr s log Hrun (frontier_ok_init q b))
    as ([_ Hdis Hpv Hvv] & Hans & Hlast).
  split; [done |]. split; [done |]. split; [| split].
  - intros Htext. destruct (final_answer s) as [a|] eqn:Ha; [by exists a |].
    destruct (Hans eq_refl) as (_ & log0 & _ & Hnone). by destruct (Htext _ _ Hnone).
  - intros i [Hp Hv]. by apply (Hdis i).
  - intros i [Hp | Hv]; [by apply Hpv | by apply Hvv].
Qed.

Lemma X27_finished_run_ends_with_answer_step_witness :
  exists tr s log,
    interp (silent_world refund_page)
           (run_chatbot (H := no_yaml) 5 "How do I get a refund?" "https://example.com") []
    = (Returned (Some (tr, s)), log)
    /\ final_answer s = None
    /\ last tr = Some (draft_answer_node, "default")
    /\ (final_answer s = None -> answer_withheld (silent_world refund_page) s log)
    /\ ((forall n prompt, call_llm (silent_world refund_page) n prompt <> inr None) ->
        is_Some (final_answer s))
    /\ (forall i, ~ (i ∈ urls_to_process s /\ i ∈ visited_urls s))
    /\ (forall i, i ∈ urls_to_process s \/ i ∈ visited_urls s ->
                  i < length (all_discovered_urls s)).
Proof.
  eexists _, _, _. split; [vm_compute; reflexivity |]. split; [reflexivity |].
  eapply (@X27_finished_run_ends_with_answer_step no_yaml (silent_world refund_page)
            5 "How do I get a refund?" "https://example.com").
  vm_compute. reflexivity.
Defined.

(** With a model that answers with texts the same run holds a final
    answer. *)
Lemma run_with_text_has_answer :
  exists tr s log,
    interp (world_of refund_page "I cannot decide.")
           (run_chatbot (H := no_yaml) 5 "How do I get a refund?" "https://example.com") []
    = (Returned (Some (tr, s)), log)
    /\ final_answer s = Some "I cannot decide.".
Proof. eexists _, _, _. split; vm_compute; reflexivity. Qed.

(** X28: when every fetch fails and the model call does not fail, a
    run with fuel for three nodes or more fetches the seed only, calls
    the model once, for the decision, and then either raises the
    [AttributeError] or the [TypeError] of a decision whose [next_url]
    is no text, or ends after one cycle with the fixed final answer that
    no relevant information was found, no page record and index 0
    visited. *)
Theorem X28_run_with_failing_fetcher `{Yaml} (w : world) (q b : string) (fuel : nat) :
  (forall n u, fetch_failed (scrape_website w n u) = true) ->
  (forall n prompt, exists reply, call_llm w n prompt = inr reply) ->
  3 <= fuel ->
  exists log,
    List.filter is_scrape log = [EvScrape b]
    /\ length (List.filter is_llm log) = 1
    /\ (interp w (run_chatbot fuel q b) [] = (Raised AttributeError, log)
        \/ interp w (run_chatbot fuel q b) [] = (Raised TypeError, log)
        \/ exists s,
             interp w (run_chatbot fuel q b) [] = (Returned (Some (the_one_cycle, s)), log)
             /\ final_answer s = Some no_relevant_information
             /\ url_content s = []
             /\ visited_urls s = {[0]}).
Proof.
  intros Hfetch Hllm Hfuel.
  destruct fuel as [|[|[|fuel]]]; try lia. clear Hfuel.
  unfold run_chatbot. simpl start.
  set (s0 := initialize_shared_store q b).
  set (s1 := crawled s0 0 []).
  assert (H1 : interp w (node_run crawl_node s0) []
               = (Returned ("agent_decide", s1), [EvScrape b])).
  { simpl node_run. rewrite interp_crawl_run. simpl.
    by rewrite (crawl_step_failed s0 0 [] b _ eq_refl eq_refl (Hfetch 0 b)). }
  rewrite (interp_orch_step w _ _ _ _ _ _ _ _ H1). simpl successors.
  destruct (Hllm 1 (decision_prompt s1)) as (reply & Hresp).
  exists [EvScrape b; EvLlm (decision_prompt s1)].
  split; [done |]. split; [done |].
  destruct (interp w (node_run agent_node s1) [EvScrape b]) as [[[a s2] | e] log2] eqn:H2.
  - right; right.
    assert (a = "answer" /\ s2 = s1 /\ log2 = [EvScrape b; EvLlm (decision_prompt s1)])
      as (-> & -> & ->).
    { simpl node_run in H2. rewrite interp_agent_run in H2. simpl length in H2.
      rewrite Hresp in H2. destruct reply as [response |]; [| by simplify_eq].
      destruct (decision_step s1 response) as [e | [a' s2']] eqn:Hstep; [discriminate |].
      injection H2 as <- <- <-.
      apply post_cases in Hstep as [[? ?] | (u & i & _ & Hfind & Hv & _)]; [done |].
      exfalso. apply find_url_index_Some in Hfind as (url & Hl & _).
      apply lookup_lt_Some in Hl. simpl in Hl.
      apply Hv. assert (i = 0) as -> by lia.
      apply elem_of_union_l, elem_of_singleton. done. }
    pose proof (interp_draft_no_content w s1 [EvScrape b; EvLlm (decision_prompt s1)]
                  eq_refl) as H3.
    exists (set_final_answer (Some no_relevant_information) s1).
    rewrite (interp_orch_step w _ _ _ _ _ _ _ _ H2). simpl successors. cbv beta iota.
    rewrite (interp_orch_step w _ _ _ _ _ _ _ _ H3). simpl successors. cbv beta iota.
    split; [done |]. split; [done |]. split; [done |].
    simpl. apply union_empty_r_L.
  - rewrite (interp_orch_raise w _ _ _ _ _ _ _ H2).
    simpl node_run in H2. rewrite interp_agent_run in H2. simpl length in H2.
    rewrite Hresp in H2. destruct reply as [response |]; [| discriminate].
    destruct (decision_step s1 response) as [e' | r] eqn:Hstep; [| discriminate].
    injection H2 as <- <-.
    destruct (post_inl _ _ _ Hstep) as [-> | ->]; auto.
Qed.

Lemma X28_run_with_failing_fetcher_witness :
  exists log,
    List.filter is_scrape log = [EvScrape "https://example.com"]
    /\ length (List.filter is_llm log) = 1
    /\ (interp (world_of failed_fetch "I cannot decide.")
               (run_chatbot (H := no_yaml) 3 "How do I get a refund?" "https://example.com") []
        = (Raised AttributeError, log)
        \/ interp (world_of failed_fetch "I cannot decide.")
                  (run_chatbot (H := no_yaml) 3 "How do I get a refund?"
                     "https://example.com") []
           = (Raised TypeError, log)
        \/ exists s,
             interp (world_of failed_fetch "I cannot decide.")
                    (run_chatbot (H := no_yaml) 3 "How do I get a refund?"
                       "https://example.com") []
             = (Returned (Some (the_one_cycle, s)), log)
             /\ final_answer s = Some no_relevant_information
             /\ url_content s = []
             /\ visited_urls s = {[0]}).
Proof.
  apply (@X28_run_with_failing_fetcher no_yaml (world_of failed_fetch "I cannot decide.")
           "How do I get a refund?" "https://example.com" 3).
  - intros n u. reflexivity.
  - intros n prompt. by exists (Some "I cannot decide.").
  - lia.
Defined.

(** Each of the three ends of such a run does occur. *)
Lemma failing_fetcher_run_ends :
  (exists log,
     interp (world_of failed_fetch null_url_response)
            (run_chatbot (H := null_url_yaml) 3 "How do I get a refund?"
               "https://example.com") []
     = (Raised AttributeError, log))
  /\ (exists log,
        interp (world_of failed_fetch bytes_url_response)
               (run_chatbot (H := bytes_url_yaml) 3 "How do I get a refund?"
                  "https://example.com") []
        = (Raised TypeError, log))
  /\ (exists s log,
        interp (silent_world failed_fetch)
               (run_chatbot (H := no_yaml) 3 "How do I get a refund?"
                  "https://example.com") []
        = (Returned (Some (the_one_cycle, s)), log)
        /\ final_answer s = Some no_relevant_information).
Proof.
  split; [eexists; vm_compute; reflexivity |].
  split; [eexists; vm_compute; reflexivity |].
  eexists _, _. split; vm_compute; reflexivity.
Qed.

(** ** The chat endpoint *)

Lemma truthy_false s : Py.truthy s = false <-> s = EmptyString.
Proof. by destruct s. Qed.

(** X29: a request whose question or whose website URL is blank is
    answered with status 500, not 400, and without any fetch or model
    call; and whatever the request, an [HTTPException] of the endpoint
    has status 500 and a detail that starts with the fixed text. *)
Theorem X29_chat_endpoint_errors_are_500 `{Yaml} `{Server} (w : world) (fuel : nat)
    (request : chat_request) :
  (Py.strip (cr_question request) = EmptyString
   \/ Py.strip (cr_website_url request) = EmptyString ->
   exists detail, chat_endpoint w fuel request = (Some (HTTPException 500 detail), []))
  /\ (forall code detail log,
        chat_endpoint w fuel request = (Some (HTTPException code detail), log) ->
        code = 500
        /\ Py.startswith "An error occurred while processing your request: " detail = true).
Proof.
  unfold chat_endpoint, internal_error. split.
  - intros Hblank.
    destruct (Py.truthy (Py.strip (cr_question request))) eqn:Hq; simpl; [| eauto].
    destruct Hblank as [Hb | Hb]; [by rewrite Hb in Hq |].
    rewrite Hb. simpl. eauto.
  - intros code detail log.
    destruct (negb _); [intros [= <- <- _]; split; [done | apply startswith_append] |].
    destruct (negb _); [intros [= <- <- _]; split; [done | apply startswith_append] |].
    destruct (interp w _ []) as [[[[tr result]|] | e] log1]; try discriminate.
    + destruct (final_answer result); [discriminate |].
      intros [= <- <- _]. split; [done | apply startswith_append].
    + intros [= <- <- _]. split; [done | apply startswith_append].
Qed.

Lemma ensure_protocol_has url :
  Py.startswith "http://" (ensure_protocol url)
  || Py.startswith "https://" (ensure_protocol url) = true.
Proof.
  unfold ensure_protocol.
  destruct (Py.startswith "http://" url || Py.startswith "https://" url) eqn:E; [done |].
  by rewrite (startswith_append "https://" url), orb_true_r.
Qed.

(** The URL handed to the run always starts with [http://] or
    [https://]; a URL that already does is handed on unchanged, so that
    the completion is idempotent. *)
Lemma ensure_protocol_idempotent (url : string) :
  Py.startswith "http://" (ensure_protocol url)
  || Py.startswith "https://" (ensure_protocol url) = true
  /\ ensure_protocol (ensure_protocol url) = ensure_protocol url
  /\ (Py.startswith "http://" url || Py.startswith "https://" url = true ->
      ensure_protocol url = url).
Proof.
  assert (Hhas : Py.startswith "http://" (ensure_protocol url)
                 || Py.startswith "https://" (ensure_protocol url) = true)
    by apply ensure_protocol_has.
  split; [exact Hhas |]. split.
  - unfold ensure_protocol at 1. by rewrite Hhas.
  - intros Hp. unfold ensure_protocol. by rewrite Hp.
Qed.

Lemma length_omap_le {A B} (f : A -> option B) (l : list A) :
  length (omap f l) <= length l.
Proof.
  induction l as [|x l IH]; simpl; [lia |].
  change (list_omap A B f l) with (omap f l). destruct (f x); simpl; lia.
Qed.

(** X30: for a request that is not blank, a run that comes to an end
    with a final answer is answered with status [success]: the answer is
    the final answer of the run, [pages_visited] is the number of
    visited indices, failed fetches included, and [urls_explored] lists
    pages with a record only, so that it is never longer than
    [pages_visited]. A run that ends without a final answer, which
    happens only when the model returned [None] for the answer, is
    answered with status 500 and the text of the validation error. *)
Theorem X30_chat_endpoint_response `{Yaml} `{Server} (w : world) (fuel : nat)
    (request : chat_request) (tr : list (node * string)) (s : shared)
    (log : list event) :
  Py.strip (cr_question request) <> EmptyString ->
  Py.strip (cr_website_url request) <> EmptyString ->
  interp w (run_chatbot fuel (cr_question request)
              (ensure_protocol (cr_website_url request))) []
  = (Returned (Some (tr, s)), log) ->
  match final_answer s with
  | Some a =>
      chat_endpoint w fuel request
      = (Some (Responded {| answer := a; status := "success";
                            pages_visited := size (visited_urls s);
                            urls_explored := explored_urls s |}), log)
  | None =>
      chat_endpoint w fuel request
      = (Some (HTTPException 500
                 ("An error occurred while processing your request: "
                  +:+ validation_error_str)), log)
      /\ answer_withheld w s log
  end
  /\ length (explored_urls s) <= size (visited_urls s).
Proof.
  intros Hq Hu Hrun.
  assert (Hend : chat_endpoint w fuel request
                 = match final_answer s with
                   | None => (Some (internal_error validation_error_str), log)
                   | Some a =>
                       (Some (Responded {| answer := a; status := "success";
                                           pages_visited := size (visited_urls s);
                                           urls_explored := explored_urls s |}), log)
                   end).
  { unfold chat_endpoint.
    destruct (Py.truthy (Py.strip (cr_question request))) eqn:Hq';
      [| by apply truthy_false in Hq'].
    destruct (Py.truthy (Py.strip (cr_website_url request))) eqn:Hu';
      [| by apply truthy_false in Hu'].
    simpl. by rewrite Hrun. }
  split.
  - destruct (final_answer s) as [a|] eqn:Ha; [done |]. split; [done |].
    unfold run_chatbot in Hrun.
    destruct (orch_returns w fuel _ _ [] tr s log Hrun (frontier_ok_init _ _))
      as (_ & Hans & _).
    by apply Hans.
  - unfold explored_urls. etransitivity; [apply length_omap_le |].
    by rewrite (set_order_perm (visited_urls s)).
Qed.

Lemma X30_chat_endpoint_response_witness :
  exists tr s log,
    interp (world_of refund_page "I cannot decide.")
           (run_chatbot (H := no_yaml) 5 "How do I get a refund?"
              (ensure_protocol "example.com")) []
    = (Returned (Some (tr, s)), log)
    /\ match final_answer s with
       | Some a =>
           chat_endpoint (H := no_yaml) (H0 := plain_server)
             (world_of refund_page "I cannot decide.") 5
             (ChatRequest "How do I get a refund?" "example.com")
           = (Some (Responded {| answer := a; status := "success";
                                 pages_visited := size (visited_urls s);
                                 urls_explored := explored_urls (H := plain_server) s |}),
              log)
       | None =>
           chat_endpoint (H := no_yaml) (H0 := plain_server)
             (world_of refund_page "I cannot decide.") 5
             (ChatRequest "How do I get a refund?" "example.com")
           = (Some (HTTPException 500
                      ("An error occurred while processing your request: "
                       +:+ validation_error_str (Server := plain_server))), log)
           /\ answer_withheld (world_of refund_page "I cannot decide.") s log
       end
    /\ length (explored_urls (H := plain_server) s) <= size (visited_urls s).
Proof.
  eexists _, _, _.
  match goal with
  | |- ?run = _ /\ _ =>
      let r := eval vm_compute in run in
      assert (Hr : run = r) by (vm_compute; reflexivity)
  end.
  split; [exact Hr |].
  exact (@X30_chat_endpoint_response no_yaml plain_server
           (world_of refund_page "I cannot decide.") 5
           (ChatRequest "How do I get a refund?" "example.com") _ _ _
           ltac:(vm_compute; discriminate) ltac:(vm_compute; discriminate) Hr).
Defined.

(** Both answers of the endpoint occur: [success] with a model that
    answers with a text, status 500 with one that returns [None]. *)
Lemma chat_endpoint_answers :
  (exists r log,
     chat_endpoint (H := no_yaml) (H0 := plain_server)
       (world_of refund_page "You can ask for a refund.") 5
       (ChatRequest "How do I get a refund?" "example.com")
     = (Some (Responded r), log)
     /\ answer r = "You can ask for a refund." /\ status r = "success"
     /\ pages_visited r = 1)
  /\ (exists detail log,
        chat_endpoint (H := no_yaml) (H0 := plain_server)
          (silent_world refund_page) 5
          (ChatRequest "How do I get a refund?" "example.com")
        = (Some (HTTPException 500 detail), log)).
Proof.
  split.
  - eexists _, _. split; [vm_compute; reflexivity |]. by vm_compute.
  - eexists _, _. vm_compute. reflexivity.
Qed.
